(** * GNews: the feed retrieval and filtering pipeline of [gnews/gnews.py]

    A shallow embedding of class [GNews] and of the library calls it makes,
    followed by the properties of the pipeline.

    Text.  A Python [str] is a Rocq [string].  The case maps [str_lower]
    and [str_upper] act on the ASCII letters, as [str.lower] and
    [str.upper] do on ASCII text; text outside ASCII is not modelled.

    Regular expressions.  [re.match(pattern, url)] is modelled by a parser
    of the pattern text ([re_compile]) and a backtracking matcher
    ([accept]).  The parser covers literals, [.], [^], [$], [|], groups and
    the quantifiers [*], [+], [?] (greedy or lazy); for a malformed pattern
    and for syntax outside this fragment (classes, escapes, counted
    repeats, group extensions) it answers [None].

    The outside world.  Feed parsing, HEAD requests and HTML stripping are
    fields of the class [Env]; the run of a query threads the state of the
    world and the trace of the calls made. *)

From Stdlib Require Import String Ascii List Bool Arith ZArith Lia.
Import ListNotations.
Open Scope list_scope.
Open Scope string_scope.

(* ================================================================== *)
(** * Text *)
(* ================================================================== *)

Definition newline : ascii := ascii_of_nat 10.
Definition nbsp : ascii := ascii_of_nat 160.

Definition is_upper (c : ascii) : bool :=
  Nat.leb 65 (nat_of_ascii c) && Nat.leb (nat_of_ascii c) 90.

Definition is_lower (c : ascii) : bool :=
  Nat.leb 97 (nat_of_ascii c) && Nat.leb (nat_of_ascii c) 122.

Definition chr_lower (c : ascii) : ascii :=
  if is_upper c then ascii_of_nat (nat_of_ascii c + 32) else c.

Definition chr_upper (c : ascii) : ascii :=
  if is_lower c then ascii_of_nat (nat_of_ascii c - 32) else c.

Fixpoint str_map (f : ascii -> ascii) (s : string) : string :=
  match s with
  | EmptyString => EmptyString
  | String c s' => String (f c) (str_map f s')
  end.

(** [s.lower()] and [s.upper()], on ASCII text: only the letters [A]-[Z]
    and [a]-[z] are mapped. *)
Definition str_lower : string -> string := str_map chr_lower.
Definition str_upper : string -> string := str_map chr_upper.

(** [s.split(sep)] for a separator of one character: every occurrence
    cuts, empty pieces are kept, and the empty string gives [['']]. *)
Fixpoint str_split (sep : ascii) (s : string) : list string :=
  match s with
  | EmptyString => [EmptyString]
  | String c s' =>
      if Ascii.eqb c sep then EmptyString :: str_split sep s'
      else match str_split sep s' with
           | w :: ws => String c w :: ws
           | [] => [String c EmptyString]
           end
  end.

(** [sep.join(pieces)] *)
Fixpoint str_join (sep : string) (pieces : list string) : string :=
  match pieces with
  | [] => EmptyString
  | [w] => w
  | w :: ws => w ++ sep ++ str_join sep ws
  end.

(** [s.startswith(p)], returning what follows [p] *)
Fixpoint strip_prefix (p s : string) : option string :=
  match p with
  | EmptyString => Some s
  | String a p' =>
      match s with
      | EmptyString => None
      | String b s' => if Ascii.eqb a b then strip_prefix p' s' else None
      end
  end.

Definition starts_with (p s : string) : bool :=
  match strip_prefix p s with Some _ => true | None => false end.

(** [needle in hay] *)
Fixpoint str_contains (needle hay : string) : bool :=
  starts_with needle hay ||
  match hay with
  | EmptyString => false
  | String _ hay' => str_contains needle hay'
  end.

(** [s.replace(a, b)] for single characters *)
Definition str_replace_chr (a b : ascii) : string -> string :=
  str_map (fun c => if Ascii.eqb c a then b else c).

(** [x in xs] for a list of strings *)
Definition str_in (x : string) (xs : list string) : bool :=
  existsb (String.eqb x) xs.

(* ================================================================== *)
(** * Regular expressions: [re.match] *)
(* ================================================================== *)

Inductive regex : Type :=
| Eps                      (* the empty pattern *)
| Chr (c : ascii)          (* a literal character *)
| AnyChar                  (* [.]: any character but a newline *)
| Bol                      (* [^]: the start of the subject *)
| Eol                      (* [$]: the end, or just before a final newline *)
| Seq (r1 r2 : regex)
| Alt (r1 r2 : regex)
| Star (r : regex).

(** What the parser remembers of the last item of a branch, for the rules
    "nothing to repeat" and "multiple repeat". *)
Inductive item_kind : Type := KAtom | KAnchor | KRepeat | KLazy.

(** A group being read: its finished branches and the items of the
    branch in progress, both most recent first. *)
Record frame : Type := mkFrame {
  alts : list regex;
  items : list (regex * item_kind)
}.

Definition empty_frame : frame := mkFrame [] [].

Definition branch_of (its : list (regex * item_kind)) : regex :=
  fold_left (fun acc it => Seq (fst it) acc) its Eps.

Definition close_frame (f : frame) : regex :=
  fold_left (fun acc b => Alt b acc) (alts f) (branch_of (items f)).

Definition push_item (r : regex) (k : item_kind) (f : frame) : frame :=
  mkFrame (alts f) ((r, k) :: items f).

Definition pstate : Type := (frame * list frame)%type.

(** The characters with a meaning of their own in a pattern. *)
Definition is_special (c : ascii) : bool :=
  existsb (Ascii.eqb c)
    ["."; "^"; "$"; "*"; "+"; "?"; "{"; "["; "\"; "|"; "("; ")"]%char.

Definition parse_char (c : ascii) (st : pstate) : option pstate :=
  let (cur, stack) := st in
  if Ascii.eqb c "(" then Some (empty_frame, cur :: stack)
  else if Ascii.eqb c ")" then
    match stack with
    | [] => None
    | parent :: rest => Some (push_item (close_frame cur) KAtom parent, rest)
    end
  else if Ascii.eqb c "|" then
    Some (mkFrame (branch_of (items cur) :: alts cur) [], stack)
  else if Ascii.eqb c "*" then
    match items cur with
    | (r, KAtom) :: its => Some (mkFrame (alts cur) ((Star r, KRepeat) :: its), stack)
    | _ => None
    end
  else if Ascii.eqb c "+" then
    match items cur with
    | (r, KAtom) :: its =>
        Some (mkFrame (alts cur) ((Seq r (Star r), KRepeat) :: its), stack)
    | _ => None
    end
  else if Ascii.eqb c "?" then
    match items cur with
    | (r, KAtom) :: its =>
        Some (mkFrame (alts cur) ((Alt r Eps, KRepeat) :: its), stack)
    | (r, KRepeat) :: its => Some (mkFrame (alts cur) ((r, KLazy) :: its), stack)
    | _ => None
    end
  else if Ascii.eqb c "." then Some (push_item AnyChar KAtom cur, stack)
  else if Ascii.eqb c "^" then Some (push_item Bol KAnchor cur, stack)
  else if Ascii.eqb c "$" then Some (push_item Eol KAnchor cur, stack)
  else if Ascii.eqb c "[" || Ascii.eqb c "{" || Ascii.eqb c "\" then None
  else Some (push_item (Chr c) KAtom cur, stack).

Fixpoint parse_from (st : pstate) (p : string) : option pstate :=
  match p with
  | EmptyString => Some st
  | String c p' =>
      match parse_char c st with
      | Some st' => parse_from st' p'
      | None => None
      end
  end.

Definition re_compile (p : string) : option regex :=
  match parse_from (empty_frame, []) p with
  | Some (cur, []) => Some (close_frame cur)
  | _ => None
  end.

(** The iterations of a star: [step] tries the body once, and an
    iteration must consume something.  The fuel is the length of what is
    left, which bounds the number of such iterations. *)
Definition star_loop (step : string -> (string -> bool) -> bool)
    (k : string -> bool) : nat -> string -> bool :=
  fix loop (fuel : nat) (s : string) {struct fuel} : bool :=
    k s ||
    match fuel with
    | O => false
    | S fuel' =>
        step s (fun s' =>
                  if Nat.ltb (String.length s') (String.length s)
                  then loop fuel' s' else false)
    end.

(** The matcher: [accept n0 r s k] tries [r] at the front of [s], a
    suffix of a subject of length [n0], and hands what is left to [k]. *)
Fixpoint accept (n0 : nat) (r : regex) (s : string) (k : string -> bool)
  {struct r} : bool :=
  match r with
  | Eps => k s
  | Chr c =>
      match s with
      | String d s' => if Ascii.eqb c d then k s' else false
      | EmptyString => false
      end
  | AnyChar =>
      match s with
      | String d s' => if Ascii.eqb d newline then false else k s'
      | EmptyString => false
      end
  | Bol => if Nat.eqb (String.length s) n0 then k s else false
  | Eol =>
      match s with
      | EmptyString => k s
      | String d EmptyString => if Ascii.eqb d newline then k s else false
      | _ => false
      end
  | Seq r1 r2 => accept n0 r1 s (fun s' => accept n0 r2 s' k)
  | Alt r1 r2 => accept n0 r1 s k || accept n0 r2 s k
  | Star r1 => star_loop (accept n0 r1) k (String.length s) s
  end.

(** What it is for [r] to match the front of [s] and leave [s'], in a
    subject of length [n0]. *)
Inductive matches (n0 : nat) : regex -> string -> string -> Prop :=
| M_Eps s : matches n0 Eps s s
| M_Chr c s : matches n0 (Chr c) (String c s) s
| M_Any d s : d <> newline -> matches n0 AnyChar (String d s) s
| M_Bol s : String.length s = n0 -> matches n0 Bol s s
| M_Eol_end : matches n0 Eol EmptyString EmptyString
| M_Eol_newline :
    matches n0 Eol (String newline EmptyString) (String newline EmptyString)
| M_Seq r1 r2 s s1 s2 :
    matches n0 r1 s s1 -> matches n0 r2 s1 s2 -> matches n0 (Seq r1 r2) s s2
| M_Alt_l r1 r2 s s' : matches n0 r1 s s' -> matches n0 (Alt r1 r2) s s'
| M_Alt_r r1 r2 s s' : matches n0 r2 s s' -> matches n0 (Alt r1 r2) s s'
| M_Star_done r s : matches n0 (Star r) s s
| M_Star_more r s s1 s2 :
    matches n0 r s s1 -> matches n0 (Star r) s1 s2 -> matches n0 (Star r) s s2.

(** [re.match(pattern, subject)] as a truth value; [None] when the
    pattern does not compile. *)
Definition re_match (pattern subject : string) : option bool :=
  match re_compile pattern with
  | Some r => Some (accept (String.length subject) r subject (fun _ => true))
  | None => None
  end.

(* ================================================================== *)
(** * The data of the pipeline *)
(* ================================================================== *)

(** The [source] field of a feed entry. *)
Record Source : Type := mkSource {
  source_title : string;
  source_href : string
}.

(** A raw feed entry; a field the feed left out is [None]. *)
Record Entry : Type := mkEntry {
  entry_title : option string;
  entry_description : option string;
  entry_published : option string;
  entry_link : option string;
  entry_source : option Source
}.

(** [item.get(key, default)] *)
Definition get_or {A : Type} (field : option A) (default : A) : A :=
  match field with Some v => v | None => default end.

(** The dictionary built by [_process]; ['publisher'] is the entry's
    source, or the string [" "]. *)
Record NewsRecord : Type := mkNews {
  news_title : string;
  news_description : string;
  news_published_date : string;
  news_url : string;
  news_publisher : Source + string
}.

(** The attributes of a [GNews] object. *)
Record GNews : Type := mkGNews {
  _max_results : Z;
  _language : string;
  _country : string;
  _exclude_website_regexes : list string;
  _period : option string;
  _BASE_URL : string
}.

Definition TOPICS : list string :=
  ["WORLD"; "NATION"; "BUSINESS"; "TECHNOLOGY"; "ENTERTAINMENT"; "SPORTS";
   "SCIENCE"; "HEALTH"].

(** The pattern [f'^http(s)?://(www.)?{website.lower()}.*'] *)
Definition website_regex (website : string) : string :=
  "^http(s)?://(www.)?" ++ str_lower website ++ ".*".

(** [GNews.__init__] *)
Definition init (language country : string) (max_results : Z)
    (period : option string) (exclude_websites : option (list string)) : GNews :=
  let exclude_websites := get_or exclude_websites [] in
  {| _max_results := max_results;
     _language := language;
     _country := country;
     _exclude_website_regexes := map website_regex exclude_websites;
     _period := period;
     _BASE_URL := "https://news.google.com/rss" |}.

(** The setter of [max_results]. *)
Definition set_max_results (self : GNews) (size : Z) : GNews :=
  {| _max_results := size;
     _language := _language self;
     _country := _country self;
     _exclude_website_regexes := _exclude_website_regexes self;
     _period := _period self;
     _BASE_URL := _BASE_URL self |}.

(** The setter of [period]. *)
Definition set_period (self : GNews) (period : option string) : GNews :=
  {| _max_results := _max_results self;
     _language := _language self;
     _country := _country self;
     _exclude_website_regexes := _exclude_website_regexes self;
     _period := period;
     _BASE_URL := _BASE_URL self |}.

(** The setters of [language] and [country].  The dictionaries
    [AVAILABLE_LANGUAGES] and [AVAILABLE_COUNTRIES] of
    [gnews.utils.constants] are parameters, read through [dict.get]:
    the setter stores [table.get(name, name)]. *)
Definition set_language (AVAILABLE_LANGUAGES : string -> option string)
    (self : GNews) (language : string) : GNews :=
  {| _max_results := _max_results self;
     _language := get_or (AVAILABLE_LANGUAGES language) language;
     _country := _country self;
     _exclude_website_regexes := _exclude_website_regexes self;
     _period := _period self;
     _BASE_URL := _BASE_URL self |}.

Definition set_country (AVAILABLE_COUNTRIES : string -> option string)
    (self : GNews) (country : string) : GNews :=
  {| _max_results := _max_results self;
     _language := _language self;
     _country := get_or (AVAILABLE_COUNTRIES country) country;
     _exclude_website_regexes := _exclude_website_regexes self;
     _period := _period self;
     _BASE_URL := _BASE_URL self |}.

(** Truth value of an optional string: [None] and [''] are false. *)
Definition truthy (s : option string) : bool :=
  match s with
  | Some EmptyString => false
  | Some _ => true
  | None => false
  end.

(** [GNews._ceid] *)
Definition _ceid (self : GNews) : string :=
  if truthy (_period self) then
    "when%3A" ++ get_or (_period self) "" ++ "&ceid=" ++ _country self ++ ":"
      ++ _language self ++ "&hl=" ++ _language self ++ "&gl=" ++ _country self
  else
    "&ceid=" ++ _country self ++ ":" ++ _language self ++ "&hl="
      ++ _language self ++ "&gl=" ++ _country self.

(** [all(bs)] after every element of the list was computed: one failure
    fails the whole list. *)
Fixpoint sequence_opt {A : Type} (l : list (option A)) : option (list A) :=
  match l with
  | [] => Some []
  | Some a :: l' =>
      match sequence_opt l' with Some r => Some (a :: r) | None => None end
  | None :: _ => None
  end.

(** [GNews.is_allowed_website] *)
Definition is_allowed_website (url : string) (blacklisted_websites : list string)
  : option bool :=
  match sequence_opt
          (map (fun website => option_map negb (re_match website url))
               blacklisted_websites) with
  | Some bs => Some (forallb (fun b => b) bs)
  | None => None
  end.

(* ================================================================== *)
(** * The outside world and the runs of a query *)
(* ================================================================== *)

(** What [requests.head(url)] does: it raises, or answers with headers,
    of which the code reads ['location']. *)
Inductive HeadResult : Type :=
| HeadRaises (error : string)
| HeadResponse (location : option string).

Class Env : Type := {
  world : Type;
  (** [feedparser.parse(url).entries] *)
  feedparser_parse : string -> world -> list Entry * world;
  (** [requests.head(url)] *)
  requests_head : string -> world -> HeadResult * world;
  (** [Soup(html, features="html.parser").get_text()] *)
  soup_get_text : string -> string
}.

Inductive LogLevel : Type := INFO | WARNING.

Inductive Event : Type :=
| EvParse (url : string)
| EvHead (url : string)
| EvLog (level : LogLevel) (message : string).

Inductive Exn : Type :=
| RequestException (error : string)   (* raised by [requests.head] *)
| ReError                             (* raised by [re.match] *).

Inductive Outcome (A : Type) : Type :=
| Returned (value : A)
| Raised (exn : Exn).
Arguments Returned {A} value.
Arguments Raised {A} exn.

Section Runs.
Context {env : Env}.

Record RunState : Type := mkRun {
  run_world : world;
  run_trace : list Event
}.

Definition M (A : Type) : Type := RunState -> Outcome A * RunState.

Definition ret {A : Type} (a : A) : M A := fun st => (Returned a, st).

Definition bind {A B : Type} (m : M A) (f : A -> M B) : M B :=
  fun st =>
    match m st with
    | (Returned a, st') => f a st'
    | (Raised e, st') => (Raised e, st')
    end.

Definition raise {A : Type} (e : Exn) : M A := fun st => (Raised e, st).

Definition emit (ev : Event) : M unit :=
  fun st => (Returned tt, mkRun (run_world st) (run_trace st ++ [ev])%list).

Definition do_parse (url : string) : M (list Entry) :=
  fun st =>
    let (entries, w) := feedparser_parse url (run_world st) in
    (Returned entries, mkRun w (run_trace st ++ [EvParse url])%list).

Definition do_head (url : string) : M (option string) :=
  fun st =>
    let (res, w) := requests_head url (run_world st) in
    let st' := mkRun w (run_trace st ++ [EvHead url])%list in
    match res with
    | HeadRaises e => (Raised (RequestException e), st')
    | HeadResponse location => (Returned location, st')
    end.

Definition logger (level : LogLevel) (message : string) : M unit :=
  emit (EvLog level message).

End Runs.

Notation "x <- m ;; k" := (bind m (fun x => k))
  (at level 61, m at next level, right associativity).
Notation "m ;;; k" := (bind m (fun _ => k))
  (at level 61, right associativity).

Section Pipeline.
Context {env : Env}.

(** [GNews._clean] *)
Definition _clean (html : string) : string :=
  let text := soup_get_text html in
  str_replace_chr nbsp " " text.

(** [GNews._get_url] *)
Definition _get_url (item : Entry) : M string :=
  let url := get_or (entry_link item) "" in
  if str_contains "news.google.com" url then
    location <- do_head url ;;
    ret (get_or location url)
  else ret url.

(** [GNews._process] *)
Definition _process (item : Entry) (url : string) : NewsRecord :=
  let title := get_or (entry_title item) "" in
  {| news_title := title;
     news_description := _clean (get_or (entry_description item) "");
     news_published_date := get_or (entry_published item) "";
     news_url := url;
     news_publisher :=
       match entry_source item with
       | Some src => inl src
       | None => inr " "
       end |}.

(** The loop of [_get_news] over the entries, [news] being the list
    appended to. *)
Fixpoint _get_news_loop (self : GNews) (entries : list Entry)
    (news : list NewsRecord) : M (list NewsRecord) :=
  match entries with
  | [] => ret news
  | entry :: rest =>
      url <- _get_url entry ;;
      match is_allowed_website url (_exclude_website_regexes self) with
      | None => raise ReError
      | Some true => _get_news_loop self rest (news ++ [_process entry url])%list
      | Some false => _get_news_loop self rest news
      end
  end.

(** [GNews._get_news] *)
Definition _get_news (self : GNews) (url : string) : M (list NewsRecord) :=
  entries <- do_parse url ;;
  _get_news_loop self entries [].

(** [GNews.get_news]; the value is [None] when the function ends without
    a [return]. *)
Definition get_news (self : GNews) (key : string) : M (option (list NewsRecord)) :=
  if negb (String.eqb key "") then
    let key := str_join "%20" (str_split " " key) in
    let url := _BASE_URL self ++ "/search?q=" ++ key ++ _ceid self in
    news <- _get_news self url ;;
    ret (Some news)
  else ret None.

(** [GNews.get_top_news] *)
Definition get_top_news (self : GNews) : M (list NewsRecord) :=
  let url := _BASE_URL self ++ "?" ++ _ceid self in
  _get_news self url.

Definition invalid_topic_message : string :=
  "Invalid topic. " ++ String newline "Available topics are: "
    ++ str_join ", " TOPICS ++ ".".

(** [GNews.get_news_by_topic] *)
Definition get_news_by_topic (self : GNews) (topic : string) : M (list NewsRecord) :=
  let topic := str_upper topic in
  if str_in topic TOPICS then
    let url := _BASE_URL self ++ "/headlines/section/topic/" ++ topic ++ "?"
                 ++ _ceid self in
    _get_news self url
  else
    logger INFO invalid_topic_message ;;;
    ret [].

(** [GNews.get_news_by_location] *)
Definition get_news_by_location (self : GNews) (location : string)
  : M (list NewsRecord) :=
  if negb (String.eqb location "") then
    let url := _BASE_URL self ++ "/headlines/section/geo/" ++ location ++ "?"
                 ++ _ceid self in
    _get_news self url
  else
    logger WARNING "Enter a valid location." ;;;
    ret [].

End Pipeline.

(* ================================================================== *)
(** * Vocabulary of the properties *)
(* ================================================================== *)

Fixpoint str_forallb (f : ascii -> bool) (s : string) : bool :=
  match s with
  | EmptyString => true
  | String c s' => f c && str_forallb f s'
  end.

Definition is_digit (c : ascii) : bool :=
  Nat.leb 48 (nat_of_ascii c) && Nat.leb (nat_of_ascii c) 57.

(** Text of ASCII characters only, on which [str_upper] and [str_lower]
    are [str.upper] and [str.lower]. *)
Definition is_ascii (s : string) : bool :=
  str_forallb (fun c => Nat.ltb (nat_of_ascii c) 128) s.

(** The characters of a host name: letters, digits, [-] and [.]. *)
Definition is_host_char (c : ascii) : bool :=
  is_lower c || is_upper c || is_digit c || Ascii.eqb c "-" || Ascii.eqb c ".".

Definition is_hostname (h : string) : bool := str_forallb is_host_char h.

(** A pattern character that stands for itself, or the dot. *)
Definition plain_or_dot (c : ascii) : bool :=
  Ascii.eqb c "." || negb (is_special c).

(** [s] begins with text that agrees with [h], a [.] of [h] standing for
    any character but a newline. *)
Fixpoint glob_prefix (h s : string) : bool :=
  match h with
  | EmptyString => true
  | String p h' =>
      match s with
      | EmptyString => false
      | String c s' =>
          (if Ascii.eqb p "." then negb (Ascii.eqb c newline) else Ascii.eqb p c)
          && glob_prefix h' s'
      end
  end.

(** What follows [http://] or [https://] at the front of a URL. *)
Definition after_scheme (url : string) : option string :=
  match strip_prefix "https://" url with
  | Some rest => Some rest
  | None => strip_prefix "http://" url
  end.

(** The URLs that the pattern of the lower-case host name [h] matches,
    said directly: scheme, then [h] read as above, or [www], one more
    character and then [h]. *)
Definition blocked_by (h url : string) : bool :=
  match after_scheme url with
  | None => false
  | Some rest =>
      glob_prefix h rest ||
      match strip_prefix "www" rest with
      | Some (String c rest') => negb (Ascii.eqb c newline) && glob_prefix h rest'
      | _ => false
      end
  end.

(** The host of an [http] or [https] URL: what stands between the scheme
    and the first of [/], [?], [#], [:]. *)
Fixpoint take_host (s : string) : string :=
  match s with
  | EmptyString => EmptyString
  | String c s' =>
      if existsb (Ascii.eqb c) ["/"; "?"; "#"; ":"]%char then EmptyString
      else String c (take_host s')
  end.

Definition url_host (url : string) : option string :=
  option_map take_host (after_scheme url).

(** ** The regex of a website pattern *)

Definition always (_ : string) : bool := true.

(** The regex of one plain pattern character. *)
Definition host_item (c : ascii) : regex :=
  if Ascii.eqb c "." then AnyChar else Chr c.

Fixpoint host_items (h : string) (acc : list (regex * item_kind))
  : list (regex * item_kind) :=
  match h with
  | EmptyString => acc
  | String c h' => host_items h' ((host_item c, KAtom) :: acc)
  end.

Fixpoint host_regex (h : string) (tail : regex) : regex :=
  match h with
  | EmptyString => tail
  | String c h' => Seq (host_item c) (host_regex h' tail)
  end.

(** The regex of [^http(s)?://(www.)?], followed by [tail]. *)
Definition scheme_regex (tail : regex) : regex :=
  Seq Bol (Seq (Chr "h") (Seq (Chr "t") (Seq (Chr "t") (Seq (Chr "p")
    (Seq (Alt (Seq (Chr "s") Eps) Eps)
      (Seq (Chr ":") (Seq (Chr "/") (Seq (Chr "/")
        (Seq (Alt (Seq (Chr "w") (Seq (Chr "w") (Seq (Chr "w")
                (Seq AnyChar Eps)))) Eps)
           tail))))))))).

(** [sub] occurs in [s]. *)
Definition occurs_in (sub s : string) : Prop :=
  exists pre post, s = pre ++ sub ++ post.

(** Every space replaced by [%20]. *)
Fixpoint encode_spaces (s : string) : string :=
  match s with
  | EmptyString => EmptyString
  | String c s' =>
      if Ascii.eqb c " " then "%20" ++ encode_spaces s'
      else String c (encode_spaces s')
  end.

(** Two configurations that differ at most in [max_results]. *)
Definition same_but_max_results (a b : GNews) : Prop :=
  _language a = _language b /\ _country a = _country b /\
  _exclude_website_regexes a = _exclude_website_regexes b /\
  _period a = _period b /\ _BASE_URL a = _BASE_URL b.

(** ** Vocabulary of the runs *)

(** The link of an entry as [_get_url] reads it. *)
Definition link_of (item : Entry) : string := get_or (entry_link item) "".

(** The links of a feed for which [_get_url] issues a HEAD request, in
    the order of the feed. *)
Definition aggregator_links (entries : list Entry) : list string :=
  filter (str_contains "news.google.com") (map link_of entries).

(** The verdict of the filter as a truth value. *)
Definition allowed_b (patterns : list string) (url : string) : bool :=
  match is_allowed_website url patterns with
  | Some true => true
  | _ => false
  end.

(** [l1] is [l2] with some elements left out. *)
Inductive subseq {A : Type} : list A -> list A -> Prop :=
| subseq_nil : subseq [] []
| subseq_skip x l1 l2 : subseq l1 l2 -> subseq l1 (x :: l2)
| subseq_take x l1 l2 : subseq l1 l2 -> subseq (x :: l1) (x :: l2).

(** No non-breaking space in [s]. *)
Definition no_nbsp (s : string) : bool :=
  str_forallb (fun c => negb (Ascii.eqb c nbsp)) s.

Definition count_spaces (s : string) : nat :=
  List.length (filter (Ascii.eqb " ") (list_ascii_of_string s)).

(** A table of two languages, for the scenarios of the setters. *)
Definition demo_languages (name : string) : option string :=
  if String.eqb name "english" then Some "en"
  else if String.eqb name "french" then Some "fr"
  else None.

Definition demo_countries (name : string) : option string :=
  if String.eqb name "United States" then Some "US"
  else if String.eqb name "France" then Some "FR"
  else None.

(** ** Two small worlds *)

Definition demo_entries : list Entry :=
  [ mkEntry (Some "First") (Some "<b>one</b>") (Some "Mon, 01 Jan 2024")
      (Some "https://news.google.com/articles/abc")
      (Some (mkSource "Example" "https://www.example.com"));
    mkEntry (Some "Second") None None (Some "https://publisher.org/a") None;
    mkEntry None None None None None ].

(** Every feed holds [demo_entries]; every HEAD request is answered with
    a redirection to [www.example.com]. *)
Definition redirecting_env : Env :=
  {| world := unit;
     feedparser_parse := fun _ w => (demo_entries, w);
     requests_head :=
       fun _ w => (HeadResponse (Some "https://www.example.com/story"), w);
     soup_get_text := fun html => html |}.

(** Every feed holds [demo_entries]; every HEAD request raises. *)
Definition failing_env : Env :=
  {| world := unit;
     feedparser_parse := fun _ w => (demo_entries, w);
     requests_head := fun _ w => (HeadRaises "ConnectionError", w);
     soup_get_text := fun html => html |}.

(** Every feed holds [demo_entries]; every HEAD request is answered
    without a [location] header. *)
Definition silent_env : Env :=
  {| world := unit;
     feedparser_parse := fun _ w => (demo_entries, w);
     requests_head := fun _ w => (HeadResponse None, w);
     soup_get_text := fun html => html |}.

(** A feed of publisher links only; HEAD requests would raise. *)
Definition publisher_entries : list Entry :=
  [ mkEntry (Some "A") (Some (String nbsp "a")) None
      (Some "https://www.example.com/story") None;
    mkEntry (Some "B") None None (Some "https://publisher.org/b") None;
    mkEntry (Some "C") None None (Some "http://example.com/c") None;
    mkEntry (Some "D") None None None None ].

Definition publisher_env : Env :=
  {| world := nat;
     feedparser_parse := fun _ w => (publisher_entries, S w);
     requests_head := fun _ w => (HeadRaises "ConnectionError", S w);
     soup_get_text := fun html => html |}.

Definition start {env : Env} (w : world) : RunState := mkRun w [].

(* ================================================================== *)
(** * Properties of the text operations *)
(* ================================================================== *)

Section TextFacts.

Lemma app_str_assoc (a b c : string) : (a ++ b) ++ c = a ++ (b ++ c).
Proof. induction a as [|x a IH]; simpl; [reflexivity | now rewrite IH]. Qed.

Lemma strip_prefix_app (p s : string) : strip_prefix p (p ++ s) = Some s.
Proof.
  induction p as [|a p IH]; simpl; [reflexivity|].
  now rewrite Ascii.eqb_refl.
Qed.

Lemma strip_prefix_inv (p s r : string) :
  strip_prefix p s = Some r -> s = p ++ r.
Proof.
  revert s; induction p as [|a p IH]; simpl; intros s H.
  - now inversion H.
  - destruct s as [|b s]; [discriminate|].
    destruct (Ascii.eqb_spec a b) as [->|]; [|discriminate].
    now rewrite (IH _ H).
Qed.

Lemma starts_with_iff (p s : string) :
  starts_with p s = true <-> exists r, s = p ++ r.
Proof.
  unfold starts_with; split.
  - destruct (strip_prefix p s) as [r|] eqn:E; [|discriminate].
    intros _; exists r; now apply strip_prefix_inv.
  - intros [r ->]; now rewrite strip_prefix_app.
Qed.

Lemma str_contains_iff (sub s : string) :
  str_contains sub s = true <-> occurs_in sub s.
Proof.
  unfold occurs_in; induction s as [|c s IH]; simpl.
  - rewrite orb_false_r, starts_with_iff; split.
    + intros [r E]; exists "", r; exact E.
    + intros [pre [post E]]; destruct pre; simpl in E.
      * now exists post.
      * discriminate.
  - rewrite orb_true_iff, starts_with_iff, IH; split.
    + intros [[r E] | [pre [post E]]].
      * exists "", r; exact E.
      * exists (String c pre), post; simpl; now rewrite E.
    + intros [pre [post E]]; destruct pre as [|d pre]; simpl in E.
      * left; now exists post.
      * right; exists pre, post; now inversion E.
Qed.

Lemma str_split_nonempty (sep : ascii) (s : string) : str_split sep s <> [].
Proof.
  destruct s as [|c s]; simpl; [discriminate|].
  destruct (Ascii.eqb c sep); [discriminate|].
  destruct (str_split sep s); discriminate.
Qed.

(** Joining the pieces cut at the spaces with [%20] replaces every
    space by [%20]. *)
Lemma join_split_spaces (s : string) :
  str_join "%20" (str_split " " s) = encode_spaces s.
Proof.
  induction s as [|c s IH]; [reflexivity|].
  cbn [str_split encode_spaces].
  destruct (Ascii.eqb c " ").
  - pose proof (str_split_nonempty " " s) as Hne.
    destruct (str_split " " s) as [|w ws] eqn:E; [contradiction|].
    change (str_join "%20" ("" :: w :: ws)) with ("%20" ++ str_join "%20" (w :: ws)).
    now rewrite IH.
  - destruct (str_split " " s) as [|w ws] eqn:E.
    + now destruct (str_split_nonempty " " s).
    + rewrite <- IH. destruct ws as [|w' ws]; reflexivity.
Qed.

Lemma encode_spaces_no_space (s : string) :
  str_forallb (fun c => negb (Ascii.eqb c " ")) (encode_spaces s) = true.
Proof.
  induction s as [|c s IH]; [reflexivity|].
  simpl. destruct (Ascii.eqb c " ") eqn:E; simpl.
  - exact IH.
  - now rewrite E.
Qed.

Lemma chr_upper_idem (c : ascii) : chr_upper (chr_upper c) = chr_upper c.
Proof. destruct c as [[] [] [] [] [] [] [] []]; reflexivity. Qed.

Lemma str_upper_idem (s : string) : str_upper (str_upper s) = str_upper s.
Proof.
  unfold str_upper; induction s as [|c s IH]; simpl; [reflexivity|].
  now rewrite chr_upper_idem, IH.
Qed.

Lemma host_char_lower_plain (c : ascii) :
  is_host_char c = true -> plain_or_dot (chr_lower c) = true.
Proof. destruct c as [[] [] [] [] [] [] [] []]; vm_compute; congruence. Qed.

Lemma hostname_lower_plain (h : string) :
  is_hostname h = true -> str_forallb plain_or_dot (str_lower h) = true.
Proof.
  unfold is_hostname, str_lower; induction h as [|c h IH]; simpl; [reflexivity|].
  rewrite andb_true_iff; intros [Hc Hh].
  now rewrite (host_char_lower_plain _ Hc), (IH Hh).
Qed.

End TextFacts.

(* ================================================================== *)
(** * Properties of the patterns of excluded websites *)
(* ================================================================== *)

Section MatcherFacts.

Lemma length_app_str (a b : string) :
  String.length (a ++ b) = String.length a + String.length b.
Proof. induction a as [|c a IH]; simpl; [reflexivity | now rewrite IH]. Qed.

Lemma matches_suffix (n0 : nat) (r : regex) (s s' : string) :
  matches n0 r s s' -> exists p, s = p ++ s'.
Proof.
  induction 1;
    try (now exists "");
    try (now eexists (String _ ""));
    try assumption.
  - destruct IHmatches1 as [p1 ->], IHmatches2 as [p2 ->].
    exists (p1 ++ p2). now rewrite app_str_assoc.
  - destruct IHmatches1 as [p1 ->], IHmatches2 as [p2 ->].
    exists (p1 ++ p2). now rewrite app_str_assoc.
Qed.

Lemma matches_no_progress (n0 : nat) (r : regex) (s s' : string) :
  matches n0 r s s' -> String.length s' <= String.length s /\
  (String.length s' = String.length s -> s' = s).
Proof.
  intros Hm. destruct (matches_suffix _ _ _ _ Hm) as [p ->].
  rewrite length_app_str. split; [lia|].
  intros Hlen. destruct p; [reflexivity | simpl in Hlen; lia].
Qed.

Lemma star_loop_unfold (step : string -> (string -> bool) -> bool)
    (k : string -> bool) (fuel : nat) (s : string) :
  star_loop step k fuel s =
  k s ||
  match fuel with
  | O => false
  | S fuel' =>
      step s (fun s' =>
                if Nat.ltb (String.length s') (String.length s)
                then star_loop step k fuel' s' else false)
  end.
Proof. destruct fuel; reflexivity. Qed.

(** What the matcher accepts is a match. *)
Lemma accept_sound (n0 : nat) (r : regex) :
  forall s k, accept n0 r s k = true ->
  exists s', matches n0 r s s' /\ k s' = true.
Proof.
  induction r as [ |c| | | |r1 IH1 r2 IH2|r1 IH1 r2 IH2|r IH]; intros s k; cbn [accept].
  - intros Hk. exists s. split; [constructor | exact Hk].
  - destruct s as [|d s]; [discriminate|].
    destruct (Ascii.eqb_spec c d) as [->|]; [|discriminate].
    intros Hk. exists s. split; [constructor | exact Hk].
  - destruct s as [|d s]; [discriminate|].
    destruct (Ascii.eqb_spec d newline) as [|Hd]; [discriminate|].
    intros Hk. exists s. split; [now constructor | exact Hk].
  - destruct (Nat.eqb_spec (String.length s) n0) as [Hl|]; [|discriminate].
    intros Hk. exists s. split; [now constructor | exact Hk].
  - destruct s as [|d [|d' s]]; try discriminate.
    + intros Hk. exists "". split; [constructor | exact Hk].
    + destruct (Ascii.eqb_spec d newline) as [->|]; [|discriminate].
      intros Hk. exists (String newline ""). split; [constructor | exact Hk].
  - intros H. destruct (IH1 _ _ H) as (s1 & Hm1 & H1).
    destruct (IH2 _ _ H1) as (s2 & Hm2 & H2).
    exists s2. split; [econstructor; eassumption | exact H2].
  - rewrite orb_true_iff. intros [H | H].
    + destruct (IH1 _ _ H) as (s' & Hm & Hk). exists s'. split; [now apply M_Alt_l | exact Hk].
    + destruct (IH2 _ _ H) as (s' & Hm & Hk). exists s'. split; [now apply M_Alt_r | exact Hk].
  - generalize (String.length s) at 1. intros fuel. revert s.
    induction fuel as [|fuel IHf]; intros s; rewrite star_loop_unfold, orb_true_iff.
    + intros [Hk | Hf]; [|discriminate]. exists s. split; [constructor | exact Hk].
    + intros [Hk | Hstep].
      * exists s. split; [constructor | exact Hk].
      * destruct (IH _ _ Hstep) as (s1 & Hm1 & H1).
        destruct (String.length s1 <? String.length s)%nat; [|discriminate].
        destruct (IHf _ H1) as (s2 & Hm2 & Hk).
        exists s2. split; [econstructor; eassumption | exact Hk].
Qed.

(** Every match is accepted: the fuel of a star is enough. *)
Lemma accept_complete (n0 : nat) (r : regex) :
  forall s s' k, matches n0 r s s' -> k s' = true -> accept n0 r s k = true.
Proof.
  induction r as [ |c| | | |r1 IH1 r2 IH2|r1 IH1 r2 IH2|r IH]; intros s s' k Hm Hk;
    cbn [accept].
  - inversion Hm; subst. exact Hk.
  - inversion Hm; subst. now rewrite Ascii.eqb_refl.
  - inversion Hm as [ | |d t Hd| | | | | | | | ]; subst.
    destruct (Ascii.eqb_spec d newline); [contradiction | exact Hk].
  - inversion Hm; subst. now rewrite Nat.eqb_refl.
  - inversion Hm; subst; [exact Hk|]. now rewrite Ascii.eqb_refl.
  - inversion Hm as [ | | | | | |a b t t1 t2 Hm1 Hm2| | | | ]; subst.
    apply (IH1 _ t1); [exact Hm1|]. now apply (IH2 _ s').
  - inversion Hm; subst; apply orb_true_iff.
    + left. now apply (IH1 _ s').
    + right. now apply (IH2 _ s').
  - assert (Hfuel : forall fuel, String.length s <= fuel ->
                      star_loop (accept n0 r) k fuel s = true);
      [|now apply Hfuel].
    remember (Star r) as sr eqn:Esr.
    induction Hm as [ | | | | | | | | |r' t|r' t t1 t2 Hm1 _ Hm2 IHstar];
      try discriminate Esr; injection Esr as ->; intros fuel Hle;
      rewrite star_loop_unfold, orb_true_iff.
    + now left.
    + destruct (matches_no_progress _ _ _ _ Hm1) as [Hlen Hsame].
      destruct (Nat.eq_dec (String.length t1) (String.length t)) as [Heq|Hneq].
      * rewrite <- (Hsame Heq). rewrite <- orb_true_iff, <- star_loop_unfold.
        apply (IHstar eq_refl Hk). lia.
      * right. destruct fuel as [|fuel]; [lia|].
        apply (IH _ t1); [exact Hm1|].
        destruct (Nat.ltb_spec (String.length t1) (String.length t)); [|lia].
        apply (IHstar eq_refl Hk). lia.
Qed.

(** [re.match] finds a match exactly when the compiled pattern matches
    the front of the subject. *)
Lemma re_match_iff (pattern subject : string) :
  re_match pattern subject = Some true <->
  exists r s', re_compile pattern = Some r /\
               matches (String.length subject) r subject s'.
Proof.
  unfold re_match. split.
  - destruct (re_compile pattern) as [r|]; [|discriminate].
    intros H. injection H as H.
    destruct (accept_sound _ _ _ _ H) as (s' & Hm & _). now exists r, s'.
  - intros (r & s' & -> & Hm). f_equal.
    now apply (accept_complete _ _ _ s').
Qed.

End MatcherFacts.

Section PatternFacts.

Lemma parse_from_app (st : pstate) (a b : string) :
  parse_from st (a ++ b) =
  match parse_from st a with
  | Some st' => parse_from st' b
  | None => None
  end.
Proof.
  revert st; induction a as [|c a IH]; intros st; simpl; [reflexivity|].
  destruct (parse_char c st); [apply IH | reflexivity].
Qed.

Lemma parse_char_plain (c : ascii) (cur : frame) (stack : list frame) :
  plain_or_dot c = true ->
  parse_char c (cur, stack) = Some (push_item (host_item c) KAtom cur, stack).
Proof.
  destruct c as [[] [] [] [] [] [] [] []]; vm_compute; congruence.
Qed.

Lemma parse_from_plain (h : string) (cur : frame) (stack : list frame) :
  str_forallb plain_or_dot h = true ->
  parse_from (cur, stack) h =
  Some (mkFrame (alts cur) (host_items h (items cur)), stack).
Proof.
  revert cur; induction h as [|c h IH]; intros cur; cbn [parse_from str_forallb host_items].
  - intros _; now destruct cur.
  - rewrite andb_true_iff; intros [Hc Hh].
    rewrite (parse_char_plain _ _ _ Hc), (IH _ Hh); reflexivity.
Qed.

Lemma fold_host_items (h : string) (its : list (regex * item_kind)) (a : regex) :
  fold_left (fun acc it => Seq (fst it) acc) (host_items h its) a =
  fold_left (fun acc it => Seq (fst it) acc) its (host_regex h a).
Proof.
  revert its a; induction h as [|c h IH]; intros its a; simpl; [reflexivity|].
  rewrite IH; reflexivity.
Qed.

(** The pattern of a website compiles, and to this regex. *)
Lemma re_compile_website (h : string) :
  str_forallb plain_or_dot h = true ->
  re_compile ("^http(s)?://(www.)?" ++ h ++ ".*") =
  Some (scheme_regex (host_regex h (Seq (Star AnyChar) Eps))).
Proof.
  intros Hh. unfold re_compile.
  rewrite parse_from_app.
  change (parse_from (empty_frame, []) "^http(s)?://(www.)?")
    with (Some (mkFrame []
           [(Alt (Seq (Chr "w") (Seq (Chr "w") (Seq (Chr "w") (Seq AnyChar Eps)))) Eps, KRepeat);
            (Chr "/", KAtom); (Chr "/", KAtom); (Chr ":", KAtom);
            (Alt (Seq (Chr "s") Eps) Eps, KRepeat);
            (Chr "p", KAtom); (Chr "t", KAtom); (Chr "t", KAtom);
            (Chr "h", KAtom); (Bol, KAnchor)], @nil frame)).
  cbv beta iota.
  rewrite parse_from_app, (parse_from_plain _ _ _ Hh).
  cbn [parse_from alts items parse_char Ascii.eqb Bool.eqb push_item].
  unfold close_frame, branch_of; cbn [alts items fold_left fst].
  rewrite fold_host_items. reflexivity.
Qed.

Lemma accept_any_star (n0 : nat) (s : string) :
  accept n0 (Seq (Star AnyChar) Eps) s always = true.
Proof. destruct s; reflexivity. Qed.

Lemma accept_host_regex (n0 : nat) (h s : string) :
  accept n0 (host_regex h (Seq (Star AnyChar) Eps)) s always = glob_prefix h s.
Proof.
  revert s; induction h as [|c h IH]; intros s.
  - apply accept_any_star.
  - cbn [host_regex glob_prefix accept]. unfold host_item.
    destruct (Ascii.eqb_spec c "."); cbn [accept]; destruct s as [|d s];
      try reflexivity.
    + destruct (Ascii.eqb d newline); [reflexivity | apply IH].
    + destruct (Ascii.eqb c d); [apply IH | reflexivity].
Qed.

Ltac split_char :=
  match goal with
  | |- context [Ascii.eqb ?a ?b] =>
      let E := fresh "E" in
      destruct (Ascii.eqb_spec a b) as [E|E];
      [try discriminate E; subst | try (exfalso; apply E; reflexivity)]
  end.

Ltac split_string :=
  match goal with
  | |- context [match ?s with EmptyString => _ | String _ _ => _ end] =>
      is_var s; destruct s
  end.

Ltac by_characters :=
  repeat (cbn [accept strip_prefix orb andb negb]; try reflexivity;
          first [split_char | split_string]).

#[local] Arguments Ascii.eqb : simpl never.

Lemma accept_www (tail : regex) (g : string -> bool) (n0 : nat) (rest : string) :
  (forall s, accept n0 tail s always = g s) ->
  accept n0
    (Seq (Alt (Seq (Chr "w") (Seq (Chr "w") (Seq (Chr "w") (Seq AnyChar Eps)))) Eps)
       tail) rest always =
  g rest ||
  match strip_prefix "www" rest with
  | Some (String c rest') => negb (Ascii.eqb c newline) && g rest'
  | _ => false
  end.
Proof.
  intros Hg. cbn [accept]. rewrite orb_comm, Hg. f_equal.
  by_characters; rewrite Hg; reflexivity.
Qed.

Lemma accept_scheme (inner : regex) (g : string -> bool) (u : string) :
  (forall s, accept (String.length u) inner s always = g s) ->
  accept (String.length u)
    (Seq Bol (Seq (Chr "h") (Seq (Chr "t") (Seq (Chr "t") (Seq (Chr "p")
      (Seq (Alt (Seq (Chr "s") Eps) Eps)
        (Seq (Chr ":") (Seq (Chr "/") (Seq (Chr "/") inner)))))))))
    u always =
  match after_scheme u with
  | None => false
  | Some rest => g rest
  end.
Proof.
  intros Hg. unfold after_scheme.
  cbn [accept]. rewrite Nat.eqb_refl.
  generalize (String.length u) Hg; clear Hg; intros n0 Hg.
  by_characters; rewrite ?orb_false_r; apply Hg.
Qed.

(** [re.match] on the pattern of a website, said directly. *)
Lemma re_match_website (h u : string) :
  str_forallb plain_or_dot h = true ->
  re_match ("^http(s)?://(www.)?" ++ h ++ ".*") u = Some (blocked_by h u).
Proof.
  intros Hh. unfold re_match. rewrite (re_compile_website _ Hh).
  f_equal. unfold scheme_regex, blocked_by.
  rewrite (accept_scheme _
             (fun rest =>
                glob_prefix h rest ||
                match strip_prefix "www" rest with
                | Some (String c rest') =>
                    negb (Ascii.eqb c newline) && glob_prefix h rest'
                | _ => false
                end)).
  - reflexivity.
  - intros s. apply accept_www. intros s'. apply accept_host_regex.
Qed.

Lemma re_match_hostname (website u : string) :
  is_hostname website = true ->
  re_match (website_regex website) u = Some (blocked_by (str_lower website) u).
Proof.
  intros Hh. apply re_match_website. now apply hostname_lower_plain.
Qed.

(** The filter over the patterns of host names. *)
Lemma is_allowed_website_hostnames (websites : list string) (u : string) :
  Forall (fun w => is_hostname w = true) websites ->
  is_allowed_website u (map website_regex websites) =
  Some (forallb (fun w => negb (blocked_by (str_lower w) u)) websites).
Proof.
  unfold is_allowed_website. induction 1 as [|w ws Hw Hws IH]; [reflexivity|].
  cbn [map sequence_opt forallb]. rewrite (re_match_hostname _ _ Hw).
  cbn [option_map].
  destruct (sequence_opt _) as [bs|]; [|discriminate].
  injection IH as E. cbn [forallb]. now rewrite E.
Qed.

End PatternFacts.

(* ================================================================== *)
(** * Properties of the website filter *)
(* ================================================================== *)

Section FilterFacts.

Lemma glob_prefix_self (h rest : string) : glob_prefix h (h ++ rest) = true.
Proof.
  induction h as [|c h IH]; [reflexivity|].
  cbn [append glob_prefix]. rewrite IH, andb_true_r.
  destruct (Ascii.eqb_spec c "."); [now subst | apply Ascii.eqb_refl].
Qed.

Lemma blocked_by_own_host (h scheme www rest : string) :
  scheme = "http" \/ scheme = "https" ->
  www = "" \/ www = "www." ->
  blocked_by h (scheme ++ "://" ++ www ++ h ++ rest) = true.
Proof.
  intros [-> | ->] [-> | ->]; unfold blocked_by; cbn;
    rewrite glob_prefix_self; try reflexivity; apply orb_true_r.
Qed.

Lemma blocked_by_scheme (h u : string) :
  blocked_by h u = true ->
  starts_with "http://" u = true \/ starts_with "https://" u = true.
Proof.
  unfold blocked_by, after_scheme, starts_with.
  destruct (strip_prefix "https://" u); [now right|].
  destruct (strip_prefix "http://" u); [now left | discriminate].
Qed.

Lemma forallb_negb_false {A : Type} (f : A -> bool) (l : list A) :
  forallb (fun x => negb (f x)) l = false -> exists x, In x l /\ f x = true.
Proof.
  induction l as [|a l IH]; cbn [forallb]; [discriminate|].
  destruct (f a) eqn:Fa; cbn [negb andb].
  - intros _; exists a; split; [now left | exact Fa].
  - intros H; destruct (IH H) as [x [Hin Hx]]; exists x; split; [now right | exact Hx].
Qed.

(** C1, as the code has it.  For exclusion names made of letters, digits,
    [-] and [.]: every URL formed of [http://] or [https://], optionally
    [www.], and the lower-cased name of a configured website (whatever
    follows) is refused; and a URL is accepted when, for every configured
    website, it does not begin with the scheme, optionally [www] and one
    character, and then text agreeing with the lower-cased name
    ([blocked_by]). *)
Theorem is_allowed_website_hosts
    (language country : string) (max_results : Z) (period : option string)
    (websites : list string) :
  Forall (fun w => is_hostname w = true) websites ->
  let patterns :=
    _exclude_website_regexes
      (init language country max_results period (Some websites)) in
  (forall H scheme www rest,
      In H websites ->
      scheme = "http" \/ scheme = "https" ->
      www = "" \/ www = "www." ->
      is_allowed_website (scheme ++ "://" ++ www ++ str_lower H ++ rest) patterns
      = Some false)
  /\
  (forall U,
      (forall H, In H websites -> blocked_by (str_lower H) U = false) ->
      is_allowed_website U patterns = Some true).
Proof.
  intros Hws patterns. subst patterns. cbn [init _exclude_website_regexes get_or].
  split.
  - intros H scheme www rest Hin Hs Hw.
    rewrite (is_allowed_website_hostnames _ _ Hws). f_equal.
    apply not_true_is_false. intros Hall.
    rewrite forallb_forall in Hall. specialize (Hall H Hin).
    now rewrite (blocked_by_own_host _ _ _ _ Hs Hw) in Hall.
  - intros U HU.
    rewrite (is_allowed_website_hostnames _ _ Hws). f_equal.
    apply forallb_forall. intros H Hin. now rewrite (HU H Hin).
Qed.

(** C4, as the code has it.  The letter case of the configured names
    does not matter: exclusion lists that agree up to letter case give
    the same patterns and so the same verdict on every URL.  The URL is
    compared as it is written: a URL that is refused begins with
    [http://] or [https://] in lower case, and agrees with the
    lower-cased name of a configured website. *)
Theorem exclusion_case
    (language country : string) (max_results : Z) (period : option string)
    (websites websites' : list string) :
  map str_lower websites = map str_lower websites' ->
  let self := init language country max_results period (Some websites) in
  let self' := init language country max_results period (Some websites') in
  _exclude_website_regexes self = _exclude_website_regexes self'
  /\
  (forall U,
      is_allowed_website U (_exclude_website_regexes self) =
      is_allowed_website U (_exclude_website_regexes self'))
  /\
  (forall U,
      Forall (fun w => is_hostname w = true) websites ->
      is_allowed_website U (_exclude_website_regexes self) = Some false ->
      (starts_with "http://" U = true \/ starts_with "https://" U = true) /\
      exists H, In H websites /\ blocked_by (str_lower H) U = true).
Proof.
  intros Hlow self self'. subst self self'.
  cbn [init _exclude_website_regexes get_or].
  assert (Hpat : map website_regex websites = map website_regex websites').
  { unfold website_regex.
    rewrite <- (map_map str_lower (fun l => "^http(s)?://(www.)?" ++ l ++ ".*")).
    rewrite <- (map_map str_lower (fun l => "^http(s)?://(www.)?" ++ l ++ ".*") websites').
    now rewrite Hlow. }
  split; [exact Hpat|]. split.
  - intros U. now rewrite Hpat.
  - intros U Hws Hblocked.
    rewrite (is_allowed_website_hostnames _ _ Hws) in Hblocked.
    injection Hblocked as Hb.
    destruct (forallb_negb_false _ _ Hb) as [H [Hin HH]].
    split; [now apply (blocked_by_scheme (str_lower H)) | now exists H].
Qed.

End FilterFacts.

(* ================================================================== *)
(** * Properties of the locale suffix *)
(* ================================================================== *)

Section SuffixFacts.

(** C2, as the code has it.  With a period set (a non-empty string) the
    suffix is [when%3A<period>&ceid=<country>:<language>&hl=<language>&gl=<country>],
    the colon after [when] being written [%3A]; with no period (or the
    empty string) it is [&ceid=<country>:<language>&hl=<language>&gl=<country>]. *)
Theorem _ceid_suffix (self : GNews) :
  (forall p, _period self = Some p -> p <> "" ->
     _ceid self =
     "when%3A" ++ p ++ "&ceid=" ++ _country self ++ ":" ++ _language self
       ++ "&hl=" ++ _language self ++ "&gl=" ++ _country self)
  /\
  (_period self = None \/ _period self = Some "" ->
     _ceid self =
     "&ceid=" ++ _country self ++ ":" ++ _language self
       ++ "&hl=" ++ _language self ++ "&gl=" ++ _country self).
Proof.
  unfold _ceid; split.
  - intros p Hp Hne. rewrite Hp. cbn [truthy get_or].
    destruct p; [contradiction | reflexivity].
  - intros [Hp | Hp]; rewrite Hp; reflexivity.
Qed.

End SuffixFacts.

(* ================================================================== *)
(** * Properties of the runs *)
(* ================================================================== *)

Section RunFacts.
Context {env : Env}.

Lemma bind_returned {A B : Type} (m : M A) (f : A -> M B) (st st' : RunState) (a : A) :
  m st = (Returned a, st') -> bind m f st = f a st'.
Proof. unfold bind; now intros ->. Qed.

Lemma str_in_iff (x : string) (xs : list string) :
  str_in x xs = true <-> In x xs.
Proof.
  unfold str_in. rewrite existsb_exists. split.
  - intros [y [Hin Hy]]. apply String.eqb_eq in Hy. now subst.
  - intros Hin. exists x. split; [exact Hin | apply String.eqb_refl].
Qed.

(** ** [_get_url] *)

Lemma _get_url_plain (item : Entry) (st : RunState) :
  str_contains "news.google.com" (get_or (entry_link item) "") = false ->
  _get_url item st = (Returned (get_or (entry_link item) ""), st).
Proof. unfold _get_url; now intros ->. Qed.

Lemma _get_url_head (item : Entry) (st : RunState) :
  str_contains "news.google.com" (get_or (entry_link item) "") = true ->
  _get_url item st =
  let link := get_or (entry_link item) "" in
  let st' := mkRun (snd (requests_head link (run_world st)))
                   (run_trace st ++ [EvHead link])%list in
  match fst (requests_head link (run_world st)) with
  | HeadRaises e => (Raised (RequestException e), st')
  | HeadResponse location => (Returned (get_or location link), st')
  end.
Proof.
  unfold _get_url; intros ->. unfold bind, do_head, ret. cbv zeta.
  destruct (requests_head _ _) as [[e | location] w]; reflexivity.
Qed.

(** C10.  [_get_url] issues a HEAD request exactly when
    [news.google.com] occurs somewhere in the link of the entry, as in
    the link of a publisher that has it in its path; without it the link
    is returned as it is and nothing is requested, and an entry without
    link gives the empty string. *)
Theorem _get_url_aggregator_test (item : Entry) (st : RunState) :
  let link := get_or (entry_link item) "" in
  (occurs_in "news.google.com" link <->
   run_trace (snd (_get_url item st)) = (run_trace st ++ [EvHead link])%list)
  /\ (~ occurs_in "news.google.com" link <->
      _get_url item st = (Returned link, st))
  /\ (entry_link item = None -> _get_url item st = (Returned "", st))
  /\ occurs_in "news.google.com" "https://publisher.example/news.google.com/story".
Proof.
  intros link. subst link.
  rewrite <- str_contains_iff.
  destruct (str_contains "news.google.com" (get_or (entry_link item) "")) eqn:C.
  - pose proof (_get_url_head item st C) as Hh. cbv zeta in Hh.
    assert (Ht : run_trace (snd (_get_url item st)) =
                 (run_trace st ++ [EvHead (get_or (entry_link item) "")])%list).
    { rewrite Hh. now destruct (fst (requests_head _ _)). }
    repeat split; auto.
    + intros Hn; now contradiction Hn.
    + intros Hp _. rewrite Hp in Ht. cbn in Ht.
      apply (f_equal (@List.length Event)) in Ht.
      rewrite length_app in Ht. cbn in Ht. lia.
    + intros Hn. rewrite Hn in C. discriminate C.
    + apply str_contains_iff. reflexivity.
  - pose proof (_get_url_plain item st C) as Hp.
    repeat split; auto; try discriminate.
    + rewrite Hp. cbn. intros Ht.
      apply (f_equal (@List.length Event)) in Ht.
      rewrite length_app in Ht. cbn in Ht. lia.
    + intros Hn. now rewrite Hn in Hp.
    + apply str_contains_iff. reflexivity.
Qed.

Lemma _get_url_trace (item : Entry) (st : RunState) :
  exists evs, run_trace (snd (_get_url item st)) = (run_trace st ++ evs)%list.
Proof.
  destruct (str_contains "news.google.com" (get_or (entry_link item) "")) eqn:C.
  - rewrite (_get_url_head item st C). cbv zeta.
    exists [EvHead (get_or (entry_link item) "")].
    now destruct (fst (requests_head _ _)).
  - rewrite (_get_url_plain item st C). exists []. cbn. now rewrite app_nil_r.
Qed.

(** ** The loop of [_get_news] *)

Lemma _get_news_loop_cons (self : GNews) (entry : Entry) (rest : list Entry)
    (news : list NewsRecord) (st : RunState) :
  _get_news_loop self (entry :: rest) news st =
  match _get_url entry st with
  | (Returned url, st') =>
      match is_allowed_website url (_exclude_website_regexes self) with
      | None => (Raised ReError, st')
      | Some true => _get_news_loop self rest (news ++ [_process entry url])%list st'
      | Some false => _get_news_loop self rest news st'
      end
  | (Raised e, st') => (Raised e, st')
  end.
Proof.
  cbn [_get_news_loop]. unfold bind.
  destruct (_get_url entry st) as [[url | e] st']; [|reflexivity].
  destruct (is_allowed_website url _) as [[|]|]; reflexivity.
Qed.

Lemma _get_news_loop_app (self : GNews) (pre post : list Entry)
    (news : list NewsRecord) (st : RunState) :
  _get_news_loop self (pre ++ post) news st =
  bind (_get_news_loop self pre news)
       (fun news' => _get_news_loop self post news') st.
Proof.
  revert news st; induction pre as [|entry pre IH]; intros news st.
  - reflexivity.
  - cbn [app]. unfold bind at 1. rewrite !_get_news_loop_cons.
    destruct (_get_url entry st) as [[url | e] st']; [|reflexivity].
    destruct (is_allowed_website url _) as [[|]|]; try reflexivity; apply IH.
Qed.

Lemma _get_news_loop_trace (self : GNews) (entries : list Entry)
    (news : list NewsRecord) (st : RunState) :
  exists evs,
    run_trace (snd (_get_news_loop self entries news st)) = (run_trace st ++ evs)%list.
Proof.
  revert news st; induction entries as [|entry rest IH]; intros news st.
  - exists []. cbn. now rewrite app_nil_r.
  - rewrite _get_news_loop_cons.
    destruct (_get_url_trace entry st) as [evs1 H1].
    destruct (_get_url entry st) as [[url | e] st']; cbn [snd] in H1.
    + destruct (is_allowed_website url _) as [[|]|].
      * destruct (IH (news ++ [_process entry url])%list st') as [evs2 H2].
        exists (evs1 ++ evs2)%list. now rewrite H2, H1, app_assoc.
      * destruct (IH news st') as [evs2 H2].
        exists (evs1 ++ evs2)%list. now rewrite H2, H1, app_assoc.
      * now exists evs1.
    + now exists evs1.
Qed.

Lemma _get_news_trace (self : GNews) (url : string) (st : RunState) :
  exists evs,
    run_trace (snd (_get_news self url st)) =
    (run_trace st ++ EvParse url :: evs)%list.
Proof.
  unfold _get_news, bind, do_parse.
  destruct (feedparser_parse url (run_world st)) as [entries w].
  destruct (_get_news_loop_trace self entries []
              (mkRun w (run_trace st ++ [EvParse url])%list)) as [evs H].
  exists evs. rewrite H. cbn [run_trace]. now rewrite <- app_assoc.
Qed.

(** C6.  Every record that [_get_news] returns has a URL that the
    filter accepts against the exclusion patterns of the object. *)
Theorem _get_news_only_allowed (self : GNews) (url : string)
    (st st' : RunState) (news : list NewsRecord) :
  _get_news self url st = (Returned news, st') ->
  Forall (fun record =>
            is_allowed_website (news_url record) (_exclude_website_regexes self)
            = Some true) news.
Proof.
  unfold _get_news, bind, do_parse.
  destruct (feedparser_parse url (run_world st)) as [entries w].
  generalize (mkRun w (run_trace st ++ [EvParse url])%list).
  assert (Hnil : Forall (fun record =>
            is_allowed_website (news_url record) (_exclude_website_regexes self)
            = Some true) []) by constructor.
  revert Hnil. generalize (@nil NewsRecord).
  induction entries as [|entry rest IH]; intros acc Hacc st0.
  - cbn. intros H; injection H as <- _. exact Hacc.
  - rewrite _get_news_loop_cons.
    destruct (_get_url entry st0) as [[u | e] st1]; [|discriminate].
    destruct (is_allowed_website u _) as [[|]|] eqn:A; [| |discriminate].
    + apply IH. apply Forall_app; split; [exact Hacc|].
      constructor; [exact A | constructor].
    + apply IH. exact Hacc.
Qed.

(** C3, as the code has it.  For an entry whose link has
    [news.google.com] in it: when the HEAD request is answered without a
    [location] header, the original link is the resolved URL; when the
    HEAD request raises, the exception leaves [_get_news] at that entry:
    the records gathered so far are not returned and the entries after
    it are not processed. *)
Theorem _get_news_head_failure (self : GNews) (entry : Entry) (link : string) :
  entry_link entry = Some link ->
  occurs_in "news.google.com" link ->
  (forall st w,
      requests_head link (run_world st) = (HeadResponse None, w) ->
      _get_url entry st =
      (Returned link, mkRun w (run_trace st ++ [EvHead link])%list))
  /\
  (forall url pre rest st0 w1 news st1 e w2,
      feedparser_parse url (run_world st0) = (pre ++ entry :: rest, w1)%list ->
      _get_news_loop self pre []
        (mkRun w1 (run_trace st0 ++ [EvParse url])%list) = (Returned news, st1) ->
      requests_head link (run_world st1) = (HeadRaises e, w2) ->
      _get_news self url st0 =
      (Raised (RequestException e),
       mkRun w2 (run_trace st1 ++ [EvHead link])%list)).
Proof.
  intros Hlink Hocc. apply str_contains_iff in Hocc.
  assert (C : str_contains "news.google.com" (get_or (entry_link entry) "") = true)
    by now rewrite Hlink.
  split.
  - intros st w Hhead. rewrite (_get_url_head entry st C). cbv zeta.
    rewrite Hlink. cbn [get_or]. now rewrite Hhead.
  - intros url pre rest st0 w1 news st1 e w2 Hfeed Hpre Hhead.
    unfold _get_news, bind at 1, do_parse. rewrite Hfeed.
    rewrite _get_news_loop_app. rewrite (bind_returned _ _ _ _ _ Hpre).
    rewrite _get_news_loop_cons, (_get_url_head entry st1 C). cbv zeta.
    rewrite Hlink. cbn [get_or]. now rewrite Hhead.
Qed.

(** C5, on the code.  With the empty search term [get_news] ends
    without a [return]: its value is [None], not a list; nothing is
    fetched and nothing is raised. *)
Theorem get_news_empty_term (self : GNews) (st : RunState) :
  get_news self "" st = (Returned None, st).
Proof. reflexivity. Qed.

(** The two other validating queries do return the empty list. *)
Lemma get_news_by_location_empty (self : GNews) (st : RunState) :
  get_news_by_location self "" st =
  (Returned [],
   mkRun (run_world st)
         (run_trace st ++ [EvLog WARNING "Enter a valid location."])%list).
Proof. reflexivity. Qed.

(** C7.  For a topic of ASCII characters, [get_news_by_topic] decides on
    the upper-cased topic: the topic and its upper-case form run alike;
    a topic of [TOPICS] is fetched; any other logs the message that
    lists the topics and returns the empty list, the world untouched. *)
Theorem get_news_by_topic_validation (self : GNews) (topic : string) (st : RunState) :
  is_ascii topic = true ->
  get_news_by_topic self topic st = get_news_by_topic self (str_upper topic) st
  /\ (In (str_upper topic) TOPICS ->
      get_news_by_topic self topic st =
      _get_news self
        (_BASE_URL self ++ "/headlines/section/topic/" ++ str_upper topic ++ "?"
           ++ _ceid self) st)
  /\ (~ In (str_upper topic) TOPICS ->
      get_news_by_topic self topic st =
      (Returned [],
       mkRun (run_world st)
             (run_trace st ++ [EvLog INFO invalid_topic_message])%list))
  /\ Forall (fun t => occurs_in t invalid_topic_message) TOPICS
  /\ TOPICS = ["WORLD"; "NATION"; "BUSINESS"; "TECHNOLOGY"; "ENTERTAINMENT";
               "SPORTS"; "SCIENCE"; "HEALTH"].
Proof.
  intros _. unfold get_news_by_topic. rewrite str_upper_idem.
  repeat split.
  - intros Hin. apply str_in_iff in Hin. now rewrite Hin.
  - intros Hout. destruct (str_in (str_upper topic) TOPICS) eqn:E.
    + apply str_in_iff in E. contradiction.
    + reflexivity.
  - apply Forall_forall. intros t Hin. apply str_contains_iff.
    assert (Hall : forallb (fun t => str_contains t invalid_topic_message) TOPICS = true)
      by reflexivity.
    rewrite forallb_forall in Hall. now apply Hall.
Qed.

(** C8.  For a non-empty term, [get_news] fetches the base URL followed
    by [/search?q=], the term with every space written [%20], and the
    locale suffix; what it puts for the term holds no space. *)
Theorem get_news_search_url (self : GNews) (key : string) (st : RunState) :
  key <> "" ->
  let url := _BASE_URL self ++ "/search?q=" ++ encode_spaces key ++ _ceid self in
  get_news self key st =
    bind (_get_news self url) (fun news => ret (Some news)) st
  /\ (exists evs,
        run_trace (snd (get_news self key st)) =
        (run_trace st ++ EvParse url :: evs)%list)
  /\ str_forallb (fun c => negb (Ascii.eqb c " ")) (encode_spaces key) = true
  /\ (key = "climate change" ->
      url = _BASE_URL self ++ "/search?q=climate%20change" ++ _ceid self).
Proof.
  intros Hne url.
  assert (Hrun : get_news self key st =
                 bind (_get_news self url) (fun news => ret (Some news)) st).
  { unfold get_news. destruct (String.eqb_spec key ""); [contradiction|].
    cbn [negb]. now rewrite join_split_spaces. }
  repeat split.
  - exact Hrun.
  - rewrite Hrun. destruct (_get_news_trace self url st) as [evs H].
    exists evs. unfold bind.
    destruct (_get_news self url st) as [[news | e] st']; exact H.
  - apply encode_spaces_no_space.
  - intros ->. reflexivity.
Qed.

(** ** [max_results] *)

Lemma _ceid_same (a b : GNews) : same_but_max_results a b -> _ceid a = _ceid b.
Proof.
  intros (Hl & Hc & _ & Hp & _). unfold _ceid. now rewrite Hl, Hc, Hp.
Qed.

Lemma _get_news_same (a b : GNews) (url : string) (st : RunState) :
  same_but_max_results a b -> _get_news a url st = _get_news b url st.
Proof.
  intros (_ & _ & He & _). unfold _get_news, bind.
  destruct (do_parse url st) as [[entries | e] st0]; [|reflexivity].
  generalize (@nil NewsRecord). revert st0.
  induction entries as [|entry rest IH]; intros st0 news; [reflexivity|].
  rewrite !_get_news_loop_cons, He.
  destruct (_get_url entry st0) as [[u | e] st1]; [|reflexivity].
  destruct (is_allowed_website u _) as [[|]|]; try reflexivity; apply IH.
Qed.

Lemma _get_news_loop_all (self : GNews) (entries : list Entry)
    (news : list NewsRecord) (st : RunState) :
  _exclude_website_regexes self = [] ->
  (forall u w, exists location, fst (requests_head u w) = HeadResponse location) ->
  exists news' st',
    _get_news_loop self entries news st = (Returned news', st') /\
    List.length news' = List.length news + List.length entries.
Proof.
  intros Hex Hhead. revert news st.
  induction entries as [|entry rest IH]; intros news st.
  - exists news, st. split; [reflexivity | cbn; lia].
  - rewrite _get_news_loop_cons, Hex.
    assert (Hurl : exists u st1, _get_url entry st = (Returned u, st1)).
    { destruct (str_contains "news.google.com" (get_or (entry_link entry) "")) eqn:C.
      - rewrite (_get_url_head entry st C). cbv zeta.
        destruct (Hhead (get_or (entry_link entry) "") (run_world st)) as [loc ->].
        eauto.
      - rewrite (_get_url_plain entry st C). eauto. }
    destruct Hurl as (u & st1 & ->). cbn [is_allowed_website map sequence_opt forallb].
    destruct (IH (news ++ [_process entry u])%list st1) as (news' & st' & Hrun & Hlen).
    exists news', st'. split; [exact Hrun|].
    rewrite Hlen, length_app. cbn. lia.
Qed.

Lemma set_max_results_same (self : GNews) (size : Z) :
  same_but_max_results self (set_max_results self size).
Proof. repeat split. Qed.

(** With host names excluded and HEAD requests that answer, [_get_news]
    returns. *)
Lemma _get_news_returns (self : GNews) (websites : list string) (url : string)
    (st : RunState) :
  _exclude_website_regexes self = map website_regex websites ->
  Forall (fun w => is_hostname w = true) websites ->
  (forall u w, exists location, fst (requests_head u w) = HeadResponse location) ->
  exists news st', _get_news self url st = (Returned news, st').
Proof.
  intros Hex Hws Hhead. unfold _get_news, bind, do_parse.
  destruct (feedparser_parse url (run_world st)) as [entries w].
  generalize (mkRun w (run_trace st ++ [EvParse url])%list) (@nil NewsRecord).
  induction entries as [|entry rest IH]; intros st0 news.
  - now exists news, st0.
  - rewrite _get_news_loop_cons, Hex.
    assert (Hurl : exists u st1, _get_url entry st0 = (Returned u, st1)).
    { destruct (str_contains "news.google.com" (get_or (entry_link entry) "")) eqn:C.
      - rewrite (_get_url_head entry st0 C). cbv zeta.
        destruct (Hhead (get_or (entry_link entry) "") (run_world st0)) as [loc ->].
        eauto.
      - rewrite (_get_url_plain entry st0 C). eauto. }
    destruct Hurl as (u & st1 & ->).
    rewrite (is_allowed_website_hostnames _ _ Hws).
    destruct (forallb _ websites); apply IH.
Qed.

(** C9.  [max_results] is never read by the queries: two objects that
    differ at most in it run every query alike; and nothing is cut off:
    with no exclusion and HEAD requests that answer, [_get_news]
    returns one record for each entry of the feed, whatever
    [max_results] is. *)
Theorem max_results_not_enforced (a b : GNews) :
  same_but_max_results a b ->
  (forall key st, get_news a key st = get_news b key st)
  /\ (forall st, get_top_news a st = get_top_news b st)
  /\ (forall topic st, get_news_by_topic a topic st = get_news_by_topic b topic st)
  /\ (forall location st,
        get_news_by_location a location st = get_news_by_location b location st)
  /\ (forall url st,
        _exclude_website_regexes a = [] ->
        (forall u w, exists location, fst (requests_head u w) = HeadResponse location) ->
        exists news st',
          _get_news a url st = (Returned news, st') /\
          List.length news = List.length (fst (feedparser_parse url (run_world st)))).
Proof.
  intros Hsame.
  pose proof (_ceid_same a b Hsame) as Hc.
  destruct Hsame as (Hl & Hco & He & Hp & Hb).
  assert (Hsame : same_but_max_results a b) by (repeat split; assumption).
  repeat split.
  - intros key st. unfold get_news. destruct (negb (key =? "")); [|reflexivity].
    unfold bind. now rewrite Hb, Hc, (_get_news_same a b _ _ Hsame).
  - intros st. unfold get_top_news. now rewrite Hb, Hc, (_get_news_same a b _ _ Hsame).
  - intros topic st. unfold get_news_by_topic.
    destruct (str_in (str_upper topic) TOPICS); [|reflexivity].
    now rewrite Hb, Hc, (_get_news_same a b _ _ Hsame).
  - intros location st. unfold get_news_by_location.
    destruct (negb (location =? "")); [|reflexivity].
    now rewrite Hb, Hc, (_get_news_same a b _ _ Hsame).
  - intros url st Hex Hhead. unfold _get_news, bind, do_parse.
    destruct (feedparser_parse url (run_world st)) as [entries w]. cbn [fst].
    destruct (_get_news_loop_all a entries [] (mkRun w (run_trace st ++ [EvParse url])%list)
                Hex Hhead) as (news & st' & Hrun & Hlen).
    exists news, st'. split; [exact Hrun | exact Hlen].
Qed.

End RunFacts.

(* ================================================================== *)
(** * Scenarios *)
(* ================================================================== *)

(** ** The website filter *)

(** The claim C1 fails on the code: with [example.com] excluded, a URL
    of the host [example.community] is refused; and with [Example.com]
    excluded, a URL of the host [Example.com] is accepted. *)
Lemma filter_refuses_unrelated_host :
  let patterns :=
    _exclude_website_regexes (init "en" "US" 100 None (Some ["example.com"])) in
  let patterns' :=
    _exclude_website_regexes (init "en" "US" 100 None (Some ["Example.com"])) in
  url_host "https://example.community/news" = Some "example.community"
  /\ is_allowed_website "https://example.community/news" patterns = Some false
  /\ url_host "http://Example.com/a" = Some "Example.com"
  /\ is_allowed_website "http://Example.com/a" patterns' = Some true.
Proof. repeat split; vm_compute; reflexivity. Qed.

(** The dots of a pattern are not escaped: with [t.co] excluded, a URL
    of the host [tacoma.gov] is refused. *)
Example filter_dot_is_wildcard :
  is_allowed_website "https://tacoma.gov/news"
    (_exclude_website_regexes (init "en" "US" 100 None (Some ["t.co"]))) = Some false.
Proof. reflexivity. Qed.

Lemma is_allowed_website_hosts_witness :
  let websites := ["Example.com"; "bbc.co.uk"] in
  let patterns := _exclude_website_regexes (init "en" "US" 100 None (Some websites)) in
  Forall (fun w => is_hostname w = true) websites
  /\ is_allowed_website "https://www.example.com/story" patterns = Some false
  /\ is_allowed_website "https://publisher.org/a" patterns = Some true.
Proof.
  intros websites patterns.
  assert (Hws : Forall (fun w => is_hostname w = true) websites)
    by (repeat constructor).
  split; [exact Hws|].
  destruct (is_allowed_website_hosts "en" "US" 100 None websites Hws)
    as [Hrefused Haccepted].
  split.
  - apply (Hrefused "Example.com" "https" "www." "/story").
    + left; reflexivity.
    + right; reflexivity.
    + right; reflexivity.
  - apply Haccepted. intros H [<- | [<- | []]]; reflexivity.
Defined.

(** The claim C4 fails on the code: [http://example.com/a] is refused,
    and the same URL with the host written [Example.com], or the scheme
    written [HTTP], is accepted. *)
Lemma filter_is_case_sensitive :
  let patterns :=
    _exclude_website_regexes (init "en" "US" 100 None (Some ["example.com"])) in
  is_allowed_website "http://example.com/a" patterns = Some false
  /\ str_lower "http://Example.com/a" = str_lower "http://example.com/a"
  /\ is_allowed_website "http://Example.com/a" patterns = Some true
  /\ str_lower "HTTP://example.com/a" = str_lower "http://example.com/a"
  /\ is_allowed_website "HTTP://example.com/a" patterns = Some true.
Proof. repeat split; vm_compute; reflexivity. Qed.

Lemma exclusion_case_witness :
  let self := init "en" "US" 100 None (Some ["BBC.com"]) in
  let self' := init "en" "US" 100 None (Some ["bbc.COM"]) in
  map str_lower ["BBC.com"] = map str_lower ["bbc.COM"]
  /\ _exclude_website_regexes self = _exclude_website_regexes self'
  /\ is_allowed_website "https://www.bbc.com/news" (_exclude_website_regexes self)
     = is_allowed_website "https://www.bbc.com/news" (_exclude_website_regexes self')
  /\ (starts_with "http://" "https://www.bbc.com/news" = true \/
      starts_with "https://" "https://www.bbc.com/news" = true).
Proof.
  intros self self'.
  assert (Hlow : map str_lower ["BBC.com"] = map str_lower ["bbc.COM"]) by reflexivity.
  split; [exact Hlow|].
  destruct (exclusion_case "en" "US" 100 None ["BBC.com"] ["bbc.COM"] Hlow)
    as (Hpatterns & Hsame & Hrefused).
  split; [exact Hpatterns|]. split.
  - apply Hsame.
  - apply (Hrefused "https://www.bbc.com/news").
    + repeat constructor.
    + reflexivity.
Defined.

(** ** The locale suffix *)

(** The claim C2 fails on the code: for [en], [US] and the period [7d]
    the suffix is not [when:7d&ceid=US:en&hl=en&gl=US]. *)
Lemma _ceid_period_colon :
  _ceid (init "en" "US" 100 (Some "7d") None) <> "when:7d&ceid=US:en&hl=en&gl=US"
  /\ _ceid (init "en" "US" 100 (Some "7d") None) = "when%3A7d&ceid=US:en&hl=en&gl=US".
Proof. split; [discriminate | reflexivity]. Qed.

Lemma _ceid_suffix_witness :
  _ceid (init "en" "US" 100 (Some "7d") None) = "when%3A7d&ceid=US:en&hl=en&gl=US"
  /\ _ceid (init "en" "US" 100 None None) = "&ceid=US:en&hl=en&gl=US".
Proof.
  split.
  - apply (proj1 (_ceid_suffix (init "en" "US" 100 (Some "7d") None)) "7d").
    + reflexivity.
    + discriminate.
  - apply (proj2 (_ceid_suffix (init "en" "US" 100 None None))).
    left; reflexivity.
Defined.

(** ** The runs *)

(** The claim C3 fails on the code: where every HEAD request raises, the
    first entry of the feed (a [news.google.com] link) makes
    [get_top_news] raise; no record is returned, of that entry or of the
    two after it. *)
Lemma head_failure_reaches_caller :
  @get_top_news failing_env (init "en" "US" 100 None None) (@start failing_env tt) =
  (Raised (RequestException "ConnectionError"),
   @mkRun failing_env tt
     [EvParse "https://news.google.com/rss?&ceid=US:en&hl=en&gl=US";
      EvHead "https://news.google.com/articles/abc"]).
Proof. reflexivity. Qed.

Lemma _get_news_head_failure_witness :
  let self := init "en" "US" 100 None None in
  let entry := hd (mkEntry None None None None None) demo_entries in
  let link := "https://news.google.com/articles/abc" in
  let url := "https://news.google.com/rss?&ceid=US:en&hl=en&gl=US" in
  entry_link entry = Some link
  /\ occurs_in "news.google.com" link
  /\ @_get_url silent_env entry (@start silent_env tt) =
     (Returned link, @mkRun silent_env tt [EvHead link])
  /\ @_get_news failing_env self url (@start failing_env tt) =
     (Raised (RequestException "ConnectionError"),
      @mkRun failing_env tt [EvParse url; EvHead link]).
Proof.
  intros self entry link url.
  assert (Hlink : entry_link entry = Some link) by reflexivity.
  assert (Hocc : occurs_in "news.google.com" link)
    by (exists "https://", "/articles/abc"; reflexivity).
  split; [exact Hlink|]. split; [exact Hocc|]. split.
  - apply (proj1 (@_get_news_head_failure silent_env self entry link Hlink Hocc)
             (@start silent_env tt) tt).
    reflexivity.
  - apply (proj2 (@_get_news_head_failure failing_env self entry link Hlink Hocc)
             url [] (tl demo_entries) (@start failing_env tt) tt []
             (@mkRun failing_env tt [EvParse url]) "ConnectionError" tt);
      reflexivity.
Defined.

Lemma _get_news_only_allowed_witness :
  let self := init "en" "US" 100 None (Some ["Example.com"]) in
  let url := "https://news.google.com/rss?&ceid=US:en&hl=en&gl=US" in
  let no_entry := mkEntry None None None None None in
  let news :=
    [@_process redirecting_env (nth 1 demo_entries no_entry) "https://publisher.org/a";
     @_process redirecting_env (nth 2 demo_entries no_entry) ""] in
  let st' :=
    @mkRun redirecting_env tt
      [EvParse url; EvHead "https://news.google.com/articles/abc"] in
  @_get_news redirecting_env self url (@start redirecting_env tt) = (Returned news, st')
  /\ Forall (fun record =>
               is_allowed_website (news_url record) (_exclude_website_regexes self)
               = Some true) news.
Proof.
  intros self url no_entry news st'.
  assert (Hrun : @_get_news redirecting_env self url (@start redirecting_env tt)
                 = (Returned news, st')) by reflexivity.
  split; [exact Hrun|].
  exact (@_get_news_only_allowed redirecting_env self url _ _ _ Hrun).
Defined.

Lemma get_news_by_topic_validation_witness :
  let self := init "en" "US" 100 None None in
  is_ascii "not-a-real-topic" = true
  /\ ~ In (str_upper "not-a-real-topic") TOPICS
  /\ @get_news_by_topic silent_env self "not-a-real-topic" (@start silent_env tt) =
     (Returned [], @mkRun silent_env tt [EvLog INFO invalid_topic_message])
  /\ is_ascii "technology" = true
  /\ In (str_upper "technology") TOPICS
  /\ @get_news_by_topic silent_env self "technology" (@start silent_env tt) =
     @_get_news silent_env self
       "https://news.google.com/rss/headlines/section/topic/TECHNOLOGY?&ceid=US:en&hl=en&gl=US"
       (@start silent_env tt).
Proof.
  intros self.
  assert (Ha : is_ascii "not-a-real-topic" = true) by reflexivity.
  assert (Ha' : is_ascii "technology" = true) by reflexivity.
  assert (Hout : ~ In (str_upper "not-a-real-topic") TOPICS).
  { intros Hin. apply (@str_in_iff) in Hin. discriminate Hin. }
  assert (Hin : In (str_upper "technology") TOPICS)
    by (apply str_in_iff; reflexivity).
  split; [exact Ha|]. split; [exact Hout|]. split.
  - apply (proj1 (proj2 (proj2
             (@get_news_by_topic_validation silent_env self "not-a-real-topic"
                (@start silent_env tt) Ha)))).
    exact Hout.
  - split; [exact Ha'|]. split; [exact Hin|].
    apply (proj1 (proj2
             (@get_news_by_topic_validation silent_env self "technology"
                (@start silent_env tt) Ha'))).
    exact Hin.
Defined.

Lemma get_news_search_url_witness :
  let self := init "en" "US" 100 None None in
  let url :=
    "https://news.google.com/rss/search?q=climate%20change&ceid=US:en&hl=en&gl=US" in
  "climate change" <> ""
  /\ @get_news silent_env self "climate change" (@start silent_env tt) =
     bind (@_get_news silent_env self url) (fun news => ret (Some news))
       (@start silent_env tt)
  /\ exists evs,
       run_trace (snd (@get_news silent_env self "climate change" (@start silent_env tt)))
       = EvParse url :: evs.
Proof.
  intros self url.
  assert (Hne : "climate change" <> "") by discriminate.
  split; [exact Hne|].
  destruct (@get_news_search_url silent_env self "climate change"
              (@start silent_env tt) Hne) as (Hrun & Htrace & _).
  split; [exact Hrun | exact Htrace].
Defined.

Lemma max_results_not_enforced_witness :
  let a := init "en" "US" 100 None None in
  let b := set_max_results a 1 in
  let url := "https://news.google.com/rss?&ceid=US:en&hl=en&gl=US" in
  same_but_max_results a b
  /\ @get_top_news silent_env a (@start silent_env tt) =
     @get_top_news silent_env b (@start silent_env tt)
  /\ exists news st',
       @_get_news silent_env b url (@start silent_env tt) = (Returned news, st')
       /\ List.length news = 3.
Proof.
  intros a b url.
  assert (Hsame : same_but_max_results a b) by (repeat split).
  assert (Hsame' : same_but_max_results b a) by (repeat split).
  split; [exact Hsame|].
  split.
  - apply (proj1 (proj2 (@max_results_not_enforced silent_env a b Hsame))).
  - apply (proj2 (proj2 (proj2 (proj2
             (@max_results_not_enforced silent_env b a Hsame')))) url
             (@start silent_env tt)).
    + reflexivity.
    + intros u w. exists None. reflexivity.
Defined.

Lemma _get_url_aggregator_test_witness :
  let no_link := mkEntry (Some "t") None None None None in
  let in_path :=
    mkEntry None None None (Some "https://publisher.example/news.google.com/story") None in
  @_get_url silent_env no_link (@start silent_env tt) = (Returned "", @start silent_env tt)
  /\ run_trace (snd (@_get_url silent_env in_path (@start silent_env tt))) =
     [EvHead "https://publisher.example/news.google.com/story"].
Proof.
  intros no_link in_path. split.
  - apply (proj1 (proj2 (proj2
             (@_get_url_aggregator_test silent_env no_link (@start silent_env tt))))).
    reflexivity.
  - apply (proj1 (proj1
             (@_get_url_aggregator_test silent_env in_path (@start silent_env tt)))).
    exists "https://publisher.example/", "/story". reflexivity.
Defined.

(* ================================================================== *)
(** * Further properties of the filter and of the configuration *)
(* ================================================================== *)

Section FilterAlgebra.

Lemma sequence_opt_app {A : Type} (a b : list (option A)) :
  sequence_opt (a ++ b)%list =
  match sequence_opt a, sequence_opt b with
  | Some x, Some y => Some (x ++ y)%list
  | _, _ => None
  end.
Proof.
  induction a as [|[v|] a IH]; cbn [app sequence_opt].
  - now destruct (sequence_opt b).
  - rewrite IH. destruct (sequence_opt a), (sequence_opt b); reflexivity.
  - reflexivity.
Qed.

(** X1.  The verdict on two exclusion lists put together is the
    conjunction of the verdicts on each (and fails when one fails): the
    order of the patterns does not matter, and a URL accepted against
    the longer list is accepted against each part. *)
Theorem is_allowed_website_app (url : string) (ps qs : list string) :
  is_allowed_website url (ps ++ qs)%list =
    match is_allowed_website url ps, is_allowed_website url qs with
    | Some a, Some b => Some (a && b)
    | _, _ => None
    end
  /\ is_allowed_website url (ps ++ qs)%list = is_allowed_website url (qs ++ ps)%list
  /\ (is_allowed_website url (ps ++ qs)%list = Some true ->
      is_allowed_website url ps = Some true /\ is_allowed_website url qs = Some true).
Proof.
  assert (Happ : forall xs ys,
             is_allowed_website url (xs ++ ys)%list =
             match is_allowed_website url xs, is_allowed_website url ys with
             | Some a, Some b => Some (a && b)
             | _, _ => None
             end).
  { intros xs ys. unfold is_allowed_website. rewrite map_app, sequence_opt_app.
    destruct (sequence_opt (map _ xs)) as [x|]; [|reflexivity].
    destruct (sequence_opt (map _ ys)) as [y|]; [|reflexivity].
    now rewrite forallb_app. }
  split; [apply Happ|]. split.
  - rewrite (Happ ps qs), (Happ qs ps).
    destruct (is_allowed_website url ps) as [a|], (is_allowed_website url qs) as [b|];
      try reflexivity.
    now rewrite andb_comm.
  - rewrite (Happ ps qs).
    destruct (is_allowed_website url ps) as [[|]|], (is_allowed_website url qs) as [[|]|];
      try discriminate; now split.
Qed.

(** X2.  The setters of [language] and [country] store the entry of
    the table for a known name and the name itself for an unknown one;
    they commute and leave the period, the exclusion patterns and
    [max_results] alone; [__init__] stores the names as given, without
    the tables. *)
Theorem locale_setters (languages countries : string -> option string)
    (self : GNews) (language country : string) :
  (languages language = None ->
     _language (set_language languages self language) = language)
  /\ (forall code, languages language = Some code ->
        _language (set_language languages self language) = code)
  /\ (countries country = None ->
        _country (set_country countries self country) = country)
  /\ (forall code, countries country = Some code ->
        _country (set_country countries self country) = code)
  /\ set_country countries (set_language languages self language) country
     = set_language languages (set_country countries self country) language
  /\ _exclude_website_regexes
       (set_country countries (set_language languages self language) country)
     = _exclude_website_regexes self
  /\ _period (set_country countries (set_language languages self language) country)
     = _period self
  /\ (forall max_results period websites,
        _language (init language country max_results period websites) = language /\
        _country (init language country max_results period websites) = country).
Proof.
  repeat split.
  - intros H. cbn. now rewrite H.
  - intros code H. cbn. now rewrite H.
  - intros H. cbn. now rewrite H.
  - intros code H. cbn. now rewrite H.
Qed.

End FilterAlgebra.

(* ================================================================== *)
(** * Further properties of the runs *)
(* ================================================================== *)

Section ListFacts.

Lemma subseq_length {A : Type} (l1 l2 : list A) :
  subseq l1 l2 -> List.length l1 <= List.length l2.
Proof. induction 1; cbn; lia. Qed.

Lemma subseq_refl {A : Type} (l : list A) : subseq l l.
Proof. induction l; constructor; assumption. Qed.

Lemma replace_chr_none (a b : ascii) (s : string) :
  a <> b ->
  str_forallb (fun c => negb (Ascii.eqb c a)) (str_replace_chr a b s) = true.
Proof.
  intros Hab. unfold str_replace_chr.
  induction s as [|c s IH]; [reflexivity|].
  cbn [str_map str_forallb]. rewrite IH, andb_true_r.
  destruct (Ascii.eqb_spec c a) as [->|Hc].
  - destruct (Ascii.eqb_spec b a); [congruence | reflexivity].
  - destruct (Ascii.eqb_spec c a); [contradiction | reflexivity].
Qed.

Lemma replace_chr_length (a b : ascii) (s : string) :
  String.length (str_replace_chr a b s) = String.length s.
Proof.
  unfold str_replace_chr. induction s as [|c s IH]; [reflexivity|].
  cbn. now rewrite IH.
Qed.

Lemma replace_chr_absent (a b : ascii) (s : string) :
  str_forallb (fun c => negb (Ascii.eqb c a)) s = true ->
  str_replace_chr a b s = s.
Proof.
  unfold str_replace_chr. induction s as [|c s IH]; [reflexivity|].
  cbn [str_map str_forallb]. rewrite andb_true_iff. intros [Hc Hs].
  rewrite (IH Hs). destruct (Ascii.eqb c a); [discriminate | reflexivity].
Qed.

End ListFacts.

Section MoreRunFacts.
Context {env : Env}.

(** X3.  The text that [_clean] returns holds no non-breaking space;
    it is as long as the text that the HTML parser gave, and is that
    text when it held none. *)
Theorem _clean_no_nbsp (html : string) :
  no_nbsp (_clean html) = true
  /\ String.length (_clean html) = String.length (soup_get_text html)
  /\ (no_nbsp (soup_get_text html) = true -> _clean html = soup_get_text html).
Proof.
  unfold _clean, no_nbsp. cbv zeta. repeat split.
  - apply replace_chr_none. discriminate.
  - apply replace_chr_length.
  - apply replace_chr_absent.
Qed.

Lemma _get_url_result (item : Entry) (st st' : RunState) (u : string) :
  _get_url item st = (Returned u, st') ->
  u = link_of item \/ occurs_in "news.google.com" (link_of item).
Proof.
  unfold link_of.
  destruct (str_contains "news.google.com" (get_or (entry_link item) "")) eqn:C.
  - intros _. right. now apply str_contains_iff.
  - rewrite (_get_url_plain item st C). intros H. left. now injection H as <- _.
Qed.

Lemma _get_news_loop_records (self : GNews) (entries : list Entry) :
  forall acc st news st',
    _get_news_loop self entries acc st = (Returned news, st') ->
    exists pairs : list (Entry * string),
      news = (acc ++ map (fun p => _process (fst p) (snd p)) pairs)%list
      /\ subseq (map fst pairs) entries
      /\ Forall (fun p => snd p = link_of (fst p) \/
                          occurs_in "news.google.com" (link_of (fst p))) pairs.
Proof.
  induction entries as [|entry rest IH]; intros acc st news st'.
  - cbn. intros H. injection H as <- _. exists []. cbn.
    rewrite app_nil_r. repeat split; constructor.
  - rewrite _get_news_loop_cons.
    destruct (_get_url entry st) as [[u | e] st1] eqn:Hu; [|discriminate].
    pose proof (_get_url_result _ _ _ _ Hu) as Hlink.
    destruct (is_allowed_website u _) as [[|]|]; [| |discriminate]; intros Hrun.
    + destruct (IH _ _ _ _ Hrun) as (pairs & -> & Hsub & Hall).
      exists ((entry, u) :: pairs). cbn [map fst snd]. split.
      * now rewrite <- app_assoc.
      * split; [now constructor | now constructor].
    + destruct (IH _ _ _ _ Hrun) as (pairs & -> & Hsub & Hall).
      exists pairs. split; [reflexivity|]. split; [now constructor | exact Hall].
Qed.

(** X4.  The records that [_get_news] returns are built by [_process]
    from entries of the feed, in the order of the feed and never more
    than once: there are at most as many records as entries.  The URL of
    a record is the link of its entry unless [news.google.com] occurs
    in that link, and its description holds no non-breaking space. *)
Theorem _get_news_records (self : GNews) (url : string) (st st' : RunState)
    (news : list NewsRecord) :
  _get_news self url st = (Returned news, st') ->
  let entries := fst (feedparser_parse url (run_world st)) in
  exists pairs : list (Entry * string),
    news = map (fun p => _process (fst p) (snd p)) pairs
    /\ subseq (map fst pairs) entries
    /\ Forall (fun p => snd p = link_of (fst p) \/
                        occurs_in "news.google.com" (link_of (fst p))) pairs
    /\ List.length news <= List.length entries
    /\ Forall (fun record => no_nbsp (news_description record) = true) news.
Proof.
  unfold _get_news, bind, do_parse.
  destruct (feedparser_parse url (run_world st)) as [entries w]. cbn [fst].
  intros Hrun. destruct (_get_news_loop_records _ _ _ _ _ _ Hrun)
    as (pairs & -> & Hsub & Hall).
  exists pairs. cbn [app]. repeat split; try assumption.
  - rewrite length_map, <- (length_map fst). now apply subseq_length.
  - apply Forall_forall. intros record Hin. apply in_map_iff in Hin.
    destruct Hin as (p & <- & _). apply _clean_no_nbsp.
Qed.

Lemma aggregator_links_cons (entry : Entry) (rest : list Entry) :
  aggregator_links (entry :: rest) =
  if str_contains "news.google.com" (link_of entry)
  then link_of entry :: aggregator_links rest
  else aggregator_links rest.
Proof. reflexivity. Qed.

Lemma _get_news_loop_requests (self : GNews) (entries : list Entry) :
  forall acc st,
  exists heads,
    run_trace (snd (_get_news_loop self entries acc st)) =
      (run_trace st ++ map EvHead heads)%list
    /\ (exists rest, aggregator_links entries = (heads ++ rest)%list)
    /\ (forall news st',
          _get_news_loop self entries acc st = (Returned news, st') ->
          heads = aggregator_links entries).
Proof.
  induction entries as [|entry rest IH]; intros acc st.
  - exists []. cbn. rewrite app_nil_r. repeat split. now exists [].
  - rewrite _get_news_loop_cons, aggregator_links_cons. unfold link_of.
    destruct (str_contains "news.google.com" (get_or (entry_link entry) "")) eqn:C.
    + rewrite (_get_url_head entry st C). cbv zeta.
      set (link := get_or (entry_link entry) "").
      set (st1 := mkRun _ _).
      destruct (fst (requests_head link (run_world st))) as [e | location].
      * exists [link]. cbn. repeat split; [now exists (aggregator_links rest) | discriminate].
      * destruct (is_allowed_website (get_or location link) _) as [[|]|].
        -- destruct (IH (acc ++ [_process entry (get_or location link)])%list st1)
             as (heads & Ht & [more Hpre] & Hall).
           exists (link :: heads). rewrite Ht. subst st1. cbn [run_trace map].
           rewrite <- app_assoc. repeat split.
           ++ exists more. cbn. now rewrite Hpre.
           ++ intros news st' Hrun. now rewrite (Hall _ _ Hrun).
        -- destruct (IH acc st1) as (heads & Ht & [more Hpre] & Hall).
           exists (link :: heads). rewrite Ht. subst st1. cbn [run_trace map].
           rewrite <- app_assoc. repeat split.
           ++ exists more. cbn. now rewrite Hpre.
           ++ intros news st' Hrun. now rewrite (Hall _ _ Hrun).
        -- exists [link]. cbn.
           repeat split; [now exists (aggregator_links rest) | discriminate].
    + rewrite (_get_url_plain entry st C).
      destruct (is_allowed_website (get_or (entry_link entry) "") _) as [[|]|].
      * apply IH.
      * apply IH.
      * exists []. cbn. rewrite app_nil_r.
        repeat split; [now exists (aggregator_links rest) | discriminate].
Qed.

(** X5.  A run of [_get_news] parses the feed once, first, and then
    only issues HEAD requests: one for each link with [news.google.com]
    in it, in the order of the feed, up to the entry at which the run
    stops; a run that returns has issued one for each such link.
    Nothing is logged. *)
Theorem _get_news_requests (self : GNews) (url : string) (st : RunState) :
  let entries := fst (feedparser_parse url (run_world st)) in
  exists heads,
    run_trace (snd (_get_news self url st)) =
      (run_trace st ++ EvParse url :: map EvHead heads)%list
    /\ (exists rest, aggregator_links entries = (heads ++ rest)%list)
    /\ (forall news st',
          _get_news self url st = (Returned news, st') ->
          heads = aggregator_links entries).
Proof.
  unfold _get_news, bind, do_parse.
  destruct (feedparser_parse url (run_world st)) as [entries w]. cbn [fst].
  destruct (_get_news_loop_requests self entries []
              (mkRun w (run_trace st ++ [EvParse url])%list))
    as (heads & Ht & Hpre & Hall).
  exists heads. rewrite Ht. cbn [run_trace]. rewrite <- app_assoc.
  repeat split; assumption.
Qed.

Lemma aggregator_links_none (entry : Entry) (rest : list Entry) :
  aggregator_links (entry :: rest) = [] ->
  str_contains "news.google.com" (get_or (entry_link entry) "") = false
  /\ aggregator_links rest = [].
Proof.
  rewrite aggregator_links_cons. unfold link_of.
  destruct (str_contains _ _); [discriminate | now split].
Qed.

Lemma _get_news_loop_publisher (self : GNews) (entries : list Entry) :
  aggregator_links entries = [] ->
  (forall e, In e entries ->
     is_allowed_website (link_of e) (_exclude_website_regexes self) <> None) ->
  forall acc st,
    _get_news_loop self entries acc st =
    (Returned
       (acc ++ map (fun e => _process e (link_of e))
                 (filter (fun e => allowed_b (_exclude_website_regexes self) (link_of e))
                    entries))%list,
     st).
Proof.
  induction entries as [|entry rest IH]; intros Hagg Hok acc st.
  - cbn. now rewrite app_nil_r.
  - destruct (aggregator_links_none _ _ Hagg) as [C Hrest].
    rewrite _get_news_loop_cons, (_get_url_plain entry st C).
    pose proof (Hok entry (or_introl eq_refl)) as Hentry.
    change (get_or (entry_link entry) "") with (link_of entry).
    destruct (is_allowed_website (link_of entry) _) as [[|]|] eqn:A.
    + assert (Hb : allowed_b (_exclude_website_regexes self) (link_of entry) = true)
        by (unfold allowed_b; now rewrite A).
      cbn [filter]. rewrite Hb.
      rewrite IH; [|exact Hrest | intros e He; apply Hok; now right].
      cbn [map]. now rewrite <- app_assoc.
    + assert (Hb : allowed_b (_exclude_website_regexes self) (link_of entry) = false)
        by (unfold allowed_b; now rewrite A).
      cbn [filter]. rewrite Hb.
      apply IH; [exact Hrest | intros e He; apply Hok; now right].
    + now contradiction Hentry.
Qed.

(** X6.  On a feed without any [news.google.com] link, [_get_news]
    makes no HEAD request and returns, in the order of the feed, the
    records of the entries whose own link the filter accepts (the
    patterns being such that the filter answers). *)
Theorem _get_news_publisher_feed (self : GNews) (url : string) (st : RunState)
    (entries : list Entry) (w : world) :
  feedparser_parse url (run_world st) = (entries, w) ->
  aggregator_links entries = [] ->
  (forall e, In e entries ->
     is_allowed_website (link_of e) (_exclude_website_regexes self) <> None) ->
  _get_news self url st =
  (Returned
     (map (fun e => _process e (link_of e))
        (filter (fun e => allowed_b (_exclude_website_regexes self) (link_of e))
           entries)),
   mkRun w (run_trace st ++ [EvParse url])%list).
Proof.
  intros Hfeed Hagg Hok. unfold _get_news, bind, do_parse. rewrite Hfeed.
  now rewrite (_get_news_loop_publisher self entries Hagg Hok).
Qed.

Lemma _get_news_loop_keeps (self : GNews) (entries : list Entry) :
  forall acc st news st',
    _get_news_loop self entries acc st = (Returned news, st') ->
    (forall r, In r acc -> In r news)
    /\ (forall e, In e entries ->
          str_contains "news.google.com" (link_of e) = false ->
          is_allowed_website (link_of e) (_exclude_website_regexes self) = Some true ->
          In (_process e (link_of e)) news).
Proof.
  induction entries as [|entry rest IH]; intros acc st news st'.
  - cbn. intros H. injection H as <- _. split; [auto | intros e []].
  - rewrite _get_news_loop_cons.
    destruct (str_contains "news.google.com" (link_of entry)) eqn:C.
    + destruct (_get_url entry st) as [[u | x] st1]; [|discriminate].
      destruct (is_allowed_website u _) as [[|]|]; [| |discriminate]; intros Hrun;
        destruct (IH _ _ _ _ Hrun) as [Hacc Hrest]; split.
      * intros r Hr. apply Hacc, in_or_app. now left.
      * intros e [<- | He] Hc Ha; [congruence | now apply Hrest].
      * exact Hacc.
      * intros e [<- | He] Hc Ha; [congruence | now apply Hrest].
    + rewrite (_get_url_plain entry st C). fold (link_of entry).
      destruct (is_allowed_website (link_of entry) _) as [[|]|] eqn:A;
        [| |discriminate]; intros Hrun;
        destruct (IH _ _ _ _ Hrun) as [Hacc Hrest]; split.
      * intros r Hr. apply Hacc, in_or_app. now left.
      * intros e [<- | He] Hc Ha; [|now apply Hrest].
        apply Hacc, in_or_app. right. now left.
      * exact Hacc.
      * intros e [<- | He] Hc Ha; [congruence | now apply Hrest].
Qed.

(** X7.  When [_get_news] returns, no accepted entry is missing: every
    entry of the feed whose link is without [news.google.com] and is
    accepted by the filter has its record in the result.  With host
    names excluded, this holds of every entry without link: its record,
    of empty URL, is returned. *)
Theorem _get_news_keeps_allowed (self : GNews) (url : string) (st st' : RunState)
    (news : list NewsRecord) :
  _get_news self url st = (Returned news, st') ->
  let entries := fst (feedparser_parse url (run_world st)) in
  (forall e, In e entries ->
     str_contains "news.google.com" (link_of e) = false ->
     is_allowed_website (link_of e) (_exclude_website_regexes self) = Some true ->
     In (_process e (link_of e)) news)
  /\ (forall websites e,
        _exclude_website_regexes self = map website_regex websites ->
        Forall (fun w => is_hostname w = true) websites ->
        In e entries -> entry_link e = None ->
        In (_process e "") news).
Proof.
  unfold _get_news, bind, do_parse.
  destruct (feedparser_parse url (run_world st)) as [entries w]. cbn [fst].
  intros Hrun. destruct (_get_news_loop_keeps _ _ _ _ _ _ Hrun) as [_ Hkeep].
  split; [exact Hkeep|].
  intros websites e Hex Hws Hin Hlink.
  assert (Hl : link_of e = "") by (unfold link_of; now rewrite Hlink).
  rewrite <- Hl. apply Hkeep; [exact Hin | now rewrite Hl |].
  rewrite Hex, (is_allowed_website_hostnames _ _ Hws), Hl. f_equal.
  apply forallb_forall. reflexivity.
Qed.

Lemma _get_news_loop_after (self self0 : GNews) (entries : list Entry) :
  _exclude_website_regexes self0 = [] ->
  (forall u, is_allowed_website u (_exclude_website_regexes self) <> None) ->
  forall acc0 st,
    _get_news_loop self entries
      (filter (fun record =>
                 allowed_b (_exclude_website_regexes self) (news_url record)) acc0) st =
    match _get_news_loop self0 entries acc0 st with
    | (Returned news0, st') =>
        (Returned
           (filter (fun record =>
                      allowed_b (_exclude_website_regexes self) (news_url record))
                   news0), st')
    | (Raised x, st') => (Raised x, st')
    end.
Proof.
  intros H0 Hok. induction entries as [|entry rest IH]; intros acc0 st.
  - reflexivity.
  - rewrite !_get_news_loop_cons, H0.
    destruct (_get_url entry st) as [[u | x] st1]; [|reflexivity].
    change (is_allowed_website u []) with (Some true). cbv iota.
    rewrite <- (IH (acc0 ++ [_process entry u])%list st1).
    rewrite filter_app. cbn [filter news_url _process].
    specialize (Hok u).
    destruct (is_allowed_website u (_exclude_website_regexes self)) as [[|]|] eqn:A.
    + assert (Hb : allowed_b (_exclude_website_regexes self) u = true)
        by (unfold allowed_b; now rewrite A).
      now rewrite Hb.
    + assert (Hb : allowed_b (_exclude_website_regexes self) u = false)
        by (unfold allowed_b; now rewrite A).
      now rewrite Hb, app_nil_r.
    + now contradiction Hok.
Qed.

(** X9.  Filtering inside the loop gives what filtering afterwards
    would: the run of an object with exclusion patterns (on which the
    filter answers) makes the requests of the run of an object without
    any, raises when it raises, and returns its records with those of a
    refused URL left out. *)
Theorem _get_news_filters_afterwards (self self0 : GNews) (url : string)
    (st : RunState) :
  _exclude_website_regexes self0 = [] ->
  (forall u, is_allowed_website u (_exclude_website_regexes self) <> None) ->
  _get_news self url st =
  match _get_news self0 url st with
  | (Returned news0, st') =>
      (Returned
         (filter (fun record =>
                    allowed_b (_exclude_website_regexes self) (news_url record))
                 news0),
       st')
  | (Raised x, st') => (Raised x, st')
  end.
Proof.
  intros H0 Hok. unfold _get_news, bind, do_parse.
  destruct (feedparser_parse url (run_world st)) as [entries w].
  exact (_get_news_loop_after self self0 entries H0 Hok [] _).
Qed.

(** X10.  With a period set, the suffix is put right after the search
    term, nothing between them: [get_news] fetches
    [<base>/search?q=<term>when%3A<period>&ceid=...]; and [get_top_news]
    fetches [<base>?when%3A<period>&ceid=...]. *)
Theorem get_news_period_joined (self : GNews) (key p : string) (st : RunState) :
  key <> "" -> _period self = Some p -> p <> "" ->
  let locale :=
    "&ceid=" ++ _country self ++ ":" ++ _language self ++ "&hl=" ++ _language self
      ++ "&gl=" ++ _country self in
  get_news self key st =
    bind (_get_news self
            (_BASE_URL self ++ "/search?q=" ++ encode_spaces key ++ "when%3A" ++ p
               ++ locale))
         (fun news => ret (Some news)) st
  /\ get_top_news self st =
     _get_news self (_BASE_URL self ++ "?" ++ "when%3A" ++ p ++ locale) st.
Proof.
  intros Hkey Hp Hne locale. subst locale.
  assert (Hc : _ceid self =
               "when%3A" ++ p ++ "&ceid=" ++ _country self ++ ":" ++ _language self
                 ++ "&hl=" ++ _language self ++ "&gl=" ++ _country self).
  { unfold _ceid. rewrite Hp. cbn [truthy get_or].
    destruct p; [contradiction | reflexivity]. }
  split.
  - unfold get_news. destruct (String.eqb_spec key ""); [contradiction|].
    cbn [negb]. now rewrite join_split_spaces, Hc.
  - unfold get_top_news. now rewrite Hc.
Qed.

(** X11.  [get_news_by_location] with the empty location logs a
    warning, fetches nothing and returns the empty list; with any other
    it fetches [<base>/headlines/section/geo/<location>?<suffix>], the
    location put in as it is, and returns what [_get_news] returns. *)
Theorem get_news_by_location_runs (self : GNews) (location : string) (st : RunState) :
  (location = "" ->
     get_news_by_location self location st =
     (Returned [],
      mkRun (run_world st)
            (run_trace st ++ [EvLog WARNING "Enter a valid location."])%list))
  /\ (location <> "" ->
      let url := _BASE_URL self ++ "/headlines/section/geo/" ++ location ++ "?"
                   ++ _ceid self in
      get_news_by_location self location st = _get_news self url st
      /\ exists evs,
           run_trace (snd (get_news_by_location self location st)) =
           (run_trace st ++ EvParse url :: evs)%list).
Proof.
  unfold get_news_by_location. split.
  - intros ->. reflexivity.
  - intros Hne. cbv zeta. destruct (String.eqb_spec location ""); [contradiction|].
    cbn [negb]. split; [reflexivity | apply _get_news_trace].
Qed.

Lemma count_spaces_cons (c : ascii) (s : string) :
  count_spaces (String c s) =
  if Ascii.eqb c " " then S (count_spaces s) else count_spaces s.
Proof.
  unfold count_spaces. cbn [list_ascii_of_string filter].
  rewrite (Ascii.eqb_sym " " c). now destruct (Ascii.eqb c " ").
Qed.

Lemma encode_spaces_length (s : string) :
  String.length (encode_spaces s) = String.length s + 2 * count_spaces s.
Proof.
  induction s as [|c s IH]; [reflexivity|].
  rewrite count_spaces_cons. cbn [encode_spaces].
  destruct (Ascii.eqb c " "); cbn [append String.length]; rewrite IH; lia.
Qed.

Lemma encode_spaces_none (s : string) : count_spaces s = 0 -> encode_spaces s = s.
Proof.
  induction s as [|c s IH]; [reflexivity|].
  rewrite count_spaces_cons. cbn [encode_spaces].
  destruct (Ascii.eqb c " "); [discriminate|].
  intros H. now rewrite (IH H).
Qed.

(** X12.  Only the spaces of a search term are rewritten: what
    [get_news] puts in the URL is longer than the term by two
    characters for each space, and a term without space is put in as it
    is, whatever its characters. *)
Theorem get_news_term_encoding (self : GNews) (key : string) (st : RunState) :
  key <> "" ->
  String.length (str_join "%20" (str_split " " key))
    = String.length key + 2 * count_spaces key
  /\ (count_spaces key = 0 ->
      get_news self key st =
      bind (_get_news self (_BASE_URL self ++ "/search?q=" ++ key ++ _ceid self))
           (fun news => ret (Some news)) st).
Proof.
  intros Hkey. rewrite join_split_spaces. split.
  - apply encode_spaces_length.
  - intros Hnone. unfold get_news.
    destruct (String.eqb_spec key ""); [contradiction|].
    cbn [negb]. now rewrite join_split_spaces, (encode_spaces_none _ Hnone).
Qed.

(** X13.  The filter is applied to the URL that the HEAD request gave,
    not to the link of the entry: for an entry with [news.google.com]
    in its link and a HEAD answer with the location [target], the
    record is kept exactly when [target] is accepted, its URL is
    [target], and the run goes on with the entries after it. *)
Theorem _get_news_redirected (self : GNews) (entry : Entry) (target url : string)
    (pre rest : list Entry) (st0 st1 : RunState) (w1 w2 : world)
    (news : list NewsRecord) :
  occurs_in "news.google.com" (link_of entry) ->
  feedparser_parse url (run_world st0) = (pre ++ entry :: rest, w1)%list ->
  _get_news_loop self pre []
    (mkRun w1 (run_trace st0 ++ [EvParse url])%list) = (Returned news, st1) ->
  requests_head (link_of entry) (run_world st1) = (HeadResponse (Some target), w2) ->
  is_allowed_website target (_exclude_website_regexes self) <> None ->
  _get_news self url st0 =
  _get_news_loop self rest
    (if allowed_b (_exclude_website_regexes self) target
     then (news ++ [_process entry target])%list else news)
    (mkRun w2 (run_trace st1 ++ [EvHead (link_of entry)])%list).
Proof.
  intros Hocc Hfeed Hpre Hhead Hok. apply str_contains_iff in Hocc.
  unfold _get_news, bind at 1, do_parse. rewrite Hfeed.
  rewrite _get_news_loop_app, (bind_returned _ _ _ _ _ Hpre).
  rewrite _get_news_loop_cons, (_get_url_head entry st1 Hocc). cbv zeta.
  fold (link_of entry). rewrite Hhead. cbn [fst snd get_or].
  unfold allowed_b.
  destruct (is_allowed_website target _) as [[|]|]; try reflexivity.
  now contradiction Hok.
Qed.

End MoreRunFacts.

(* ================================================================== *)
(** * Further scenarios *)
(* ================================================================== *)

Lemma is_allowed_website_app_witness :
  let ps := [website_regex "example.com"] in
  let qs := [website_regex "bbc.com"] in
  is_allowed_website "https://publisher.org/" (ps ++ qs)%list = Some true
  /\ is_allowed_website "https://publisher.org/" ps = Some true
  /\ is_allowed_website "https://publisher.org/" qs = Some true.
Proof.
  intros ps qs.
  assert (H : is_allowed_website "https://publisher.org/" (ps ++ qs)%list = Some true)
    by reflexivity.
  split; [exact H|].
  exact (proj2 (proj2 (is_allowed_website_app "https://publisher.org/" ps qs)) H).
Defined.

Lemma locale_setters_witness :
  let self := init "en" "US" 100 None None in
  demo_languages "french" = Some "fr"
  /\ _language (set_language demo_languages self "french") = "fr"
  /\ demo_countries "Atlantis" = None
  /\ _country (set_country demo_countries self "Atlantis") = "Atlantis".
Proof.
  intros self.
  assert (Hl : demo_languages "french" = Some "fr") by reflexivity.
  assert (Hc : demo_countries "Atlantis" = None) by reflexivity.
  pose proof (locale_setters demo_languages demo_countries self "french" "Atlantis")
    as (_ & Hknown & Hunknown & _).
  split; [exact Hl|]. split; [exact (Hknown "fr" Hl)|].
  split; [exact Hc | exact (Hunknown Hc)].
Defined.

Lemma _clean_no_nbsp_witness :
  no_nbsp (@soup_get_text silent_env "plain text") = true
  /\ @_clean silent_env "plain text" = "plain text"
  /\ no_nbsp (@_clean silent_env (String nbsp "a")) = true.
Proof.
  assert (H : no_nbsp (@soup_get_text silent_env "plain text") = true) by reflexivity.
  split; [exact H|]. split.
  - exact (proj2 (proj2 (@_clean_no_nbsp silent_env "plain text")) H).
  - exact (proj1 (@_clean_no_nbsp silent_env (String nbsp "a"))).
Defined.

Lemma _get_news_records_witness :
  let self := init "en" "US" 100 None (Some ["Example.com"]) in
  let url := "https://news.google.com/rss?&ceid=US:en&hl=en&gl=US" in
  exists news st',
    @_get_news redirecting_env self url (@start redirecting_env tt) = (Returned news, st')
    /\ List.length news = 2
    /\ exists pairs : list (Entry * string),
         news = map (fun p => @_process redirecting_env (fst p) (snd p)) pairs
         /\ subseq (map fst pairs) demo_entries.
Proof.
  intros self url.
  destruct (@_get_news redirecting_env self url (@start redirecting_env tt))
    as [[news | x] st'] eqn:Hrun;
    [|vm_compute in Hrun; discriminate Hrun].
  exists news, st'. split; [reflexivity|]. split.
  - vm_compute in Hrun. injection Hrun as <- _. reflexivity.
  - destruct (@_get_news_records redirecting_env self url _ _ _ Hrun)
      as (pairs & Hnews & Hsub & _).
    exists pairs. split; [exact Hnews | exact Hsub].
Defined.

Lemma _get_news_requests_witness :
  let self := init "en" "US" 100 None None in
  let url := "https://news.google.com/rss?&ceid=US:en&hl=en&gl=US" in
  aggregator_links demo_entries = ["https://news.google.com/articles/abc"]
  /\ exists heads,
       run_trace (snd (@_get_news silent_env self url (@start silent_env tt))) =
         EvParse url :: map EvHead heads
       /\ heads = aggregator_links demo_entries.
Proof.
  intros self url. split; [reflexivity|].
  destruct (@_get_news_requests silent_env self url (@start silent_env tt))
    as (heads & Ht & _ & Hall).
  exists heads. split; [exact Ht|].
  destruct (@_get_news silent_env self url (@start silent_env tt))
    as [[news | x] st'] eqn:Hrun;
    [|vm_compute in Hrun; discriminate Hrun].
  exact (Hall news st' eq_refl).
Defined.

Lemma publisher_patterns_answer (u : string) :
  is_allowed_website u
    (_exclude_website_regexes (init "en" "US" 100 None (Some ["Example.com"]))) <> None.
Proof.
  cbn [init _exclude_website_regexes get_or].
  rewrite is_allowed_website_hostnames; [discriminate | repeat constructor].
Qed.

Lemma _get_news_publisher_feed_witness :
  let self := init "en" "US" 100 None (Some ["Example.com"]) in
  let url := "https://news.google.com/rss?&ceid=US:en&hl=en&gl=US" in
  aggregator_links publisher_entries = []
  /\ @_get_news publisher_env self url (@start publisher_env 0) =
     (Returned
        [@_process publisher_env
           (mkEntry (Some "B") None None (Some "https://publisher.org/b") None)
           "https://publisher.org/b";
         @_process publisher_env (mkEntry (Some "D") None None None None) ""],
      @mkRun publisher_env 1 [EvParse url]).
Proof.
  intros self url.
  assert (Hagg : aggregator_links publisher_entries = []) by reflexivity.
  split; [exact Hagg|].
  apply (@_get_news_publisher_feed publisher_env self url (@start publisher_env 0)
           publisher_entries 1).
  - reflexivity.
  - exact Hagg.
  - intros e _. apply publisher_patterns_answer.
Defined.

Lemma _get_news_keeps_allowed_witness :
  let self := init "en" "US" 100 None (Some ["Example.com"]) in
  let url := "https://news.google.com/rss?&ceid=US:en&hl=en&gl=US" in
  let no_link := mkEntry (Some "D") None None None None in
  exists news st',
    @_get_news publisher_env self url (@start publisher_env 0) = (Returned news, st')
    /\ In no_link publisher_entries
    /\ In (@_process publisher_env no_link "") news.
Proof.
  intros self url no_link.
  destruct (@_get_news publisher_env self url (@start publisher_env 0))
    as [[news | x] st'] eqn:Hrun;
    [|vm_compute in Hrun; discriminate Hrun].
  assert (Hin : In no_link publisher_entries) by (do 3 right; left; reflexivity).
  exists news, st'. split; [reflexivity|]. split; [exact Hin|].
  apply (proj2 (@_get_news_keeps_allowed publisher_env self url _ _ _ Hrun)
           ["Example.com"] no_link).
  - reflexivity.
  - repeat constructor.
  - exact Hin.
  - reflexivity.
Defined.

Lemma _get_news_filters_afterwards_witness :
  let self := init "en" "US" 100 None (Some ["Example.com"]) in
  let self0 := init "en" "US" 100 None None in
  let url := "https://news.google.com/rss?&ceid=US:en&hl=en&gl=US" in
  _exclude_website_regexes self0 = []
  /\ @_get_news redirecting_env self url (@start redirecting_env tt) =
     match @_get_news redirecting_env self0 url (@start redirecting_env tt) with
     | (Returned news0, st') =>
         (Returned
            (filter (fun record =>
                       allowed_b (_exclude_website_regexes self) (news_url record))
                    news0), st')
     | (Raised x, st') => (Raised x, st')
     end.
Proof.
  intros self self0 url.
  assert (H0 : _exclude_website_regexes self0 = []) by reflexivity.
  split; [exact H0|].
  exact (@_get_news_filters_afterwards redirecting_env self self0 url
           (@start redirecting_env tt) H0 publisher_patterns_answer).
Defined.

Lemma get_news_period_joined_witness :
  let self := init "en" "US" 100 (Some "7d") None in
  "climate change" <> "" /\ _period self = Some "7d" /\ "7d" <> ""
  /\ @get_news silent_env self "climate change" (@start silent_env tt) =
     bind (@_get_news silent_env self
             "https://news.google.com/rss/search?q=climate%20changewhen%3A7d&ceid=US:en&hl=en&gl=US")
          (fun news => ret (Some news)) (@start silent_env tt).
Proof.
  intros self.
  assert (Hk : "climate change" <> "") by discriminate.
  assert (Hp : _period self = Some "7d") by reflexivity.
  assert (Hn : "7d" <> "") by discriminate.
  split; [exact Hk|]. split; [exact Hp|]. split; [exact Hn|].
  exact (proj1 (@get_news_period_joined silent_env self "climate change" "7d"
                  (@start silent_env tt) Hk Hp Hn)).
Defined.

Lemma get_news_by_location_runs_witness :
  let self := init "en" "US" 100 None None in
  @get_news_by_location silent_env self "" (@start silent_env tt) =
    (Returned [], @mkRun silent_env tt [EvLog WARNING "Enter a valid location."])
  /\ "New York" <> ""
  /\ @get_news_by_location silent_env self "New York" (@start silent_env tt) =
     @_get_news silent_env self
       "https://news.google.com/rss/headlines/section/geo/New York?&ceid=US:en&hl=en&gl=US"
       (@start silent_env tt).
Proof.
  intros self.
  assert (Hne : "New York" <> "") by discriminate.
  split.
  - exact (proj1 (@get_news_by_location_runs silent_env self "" (@start silent_env tt))
             eq_refl).
  - split; [exact Hne|].
    exact (proj1 (proj2 (@get_news_by_location_runs silent_env self "New York"
                           (@start silent_env tt)) Hne)).
Defined.

Lemma get_news_term_encoding_witness :
  let self := init "en" "US" 100 None None in
  "a&b=c#d" <> "" /\ count_spaces "a&b=c#d" = 0
  /\ @get_news silent_env self "a&b=c#d" (@start silent_env tt) =
     bind (@_get_news silent_env self
             "https://news.google.com/rss/search?q=a&b=c#d&ceid=US:en&hl=en&gl=US")
          (fun news => ret (Some news)) (@start silent_env tt).
Proof.
  intros self.
  assert (Hk : "a&b=c#d" <> "") by discriminate.
  assert (Hc : count_spaces "a&b=c#d" = 0) by reflexivity.
  split; [exact Hk|]. split; [exact Hc|].
  exact (proj2 (@get_news_term_encoding silent_env self "a&b=c#d"
                  (@start silent_env tt) Hk) Hc).
Defined.

Lemma _get_news_redirected_witness :
  let self := init "en" "US" 100 None (Some ["Example.com"]) in
  let url := "https://news.google.com/rss?&ceid=US:en&hl=en&gl=US" in
  let entry := hd (mkEntry None None None None None) demo_entries in
  let target := "https://www.example.com/story" in
  occurs_in "news.google.com" (link_of entry)
  /\ allowed_b (_exclude_website_regexes self) target = false
  /\ @_get_news redirecting_env self url (@start redirecting_env tt) =
     @_get_news_loop redirecting_env self (tl demo_entries) []
       (@mkRun redirecting_env tt [EvParse url; EvHead (link_of entry)]).
Proof.
  intros self url entry target.
  assert (Hocc : occurs_in "news.google.com" (link_of entry))
    by (exists "https://", "/articles/abc"; reflexivity).
  split; [exact Hocc|]. split; [reflexivity|].
  apply (@_get_news_redirected redirecting_env self entry target url []
           (tl demo_entries) (@start redirecting_env tt)
           (@mkRun redirecting_env tt [EvParse url]) tt tt [] Hocc).
  - reflexivity.
  - reflexivity.
  - reflexivity.
  - apply publisher_patterns_answer.
Defined.
